(** * Validated UUIDs: a shallow embedding of the Go package [uuid]

    The package wraps [github.com/google/uuid.UUID] in a type
    [ValidatedUUID] that refuses the all-zero identifier, and converts it
    to and from text, JSON, a protobuf message, a protobuf [StringValue]
    and a database column.

    Conventions of the embedding:
    - a Go [byte] is a [Byte.byte], a [[]byte] a [list byte], a Go
      [string] a [string] (whose characters are the bytes of the Go
      string), a [[16]byte] a [list byte] of length 16;
    - a Go [error] is an [option error] ([None] is [nil]);
    - several results are a tuple, in the order of the Go signature;
    - a function that may panic returns an [outcome];
    - protobuf messages live in a [Store] and are passed by [ptr];
    - a method with a pointer receiver takes the receiver's value and
      returns its value after the call. *)

From Stdlib Require Import NArith ZArith Lia List String Ascii.
From Stdlib Require Import Strings.Byte.
From stdpp Require Import base option list strings gmap.
Import ListNotations.

(** ** Bytes and strings *)

#[global] Instance byte_eq_dec : EqDecision byte := Byte.byte_eq_dec.
#[global] Instance byte_inhabited : Inhabited byte := populate x00.

(** Conversion of an integer to a [byte], keeping the low eight bits. *)
Definition u8 (n : N) : byte :=
  match Byte.of_N (n mod 256) with
  | Some b => b
  | None => x00
  end.

(** [[]byte(s)] and [string(b)]. *)
Definition bytes (s : string) : list byte := list_byte_of_string s.
Definition string_of_bytes (b : list byte) : string := string_of_list_byte b.

(** [c] lies between the characters [lo] and [hi], both included. *)
Definition between (lo hi c : byte) : bool :=
  (Byte.to_N lo <=? Byte.to_N c)%N && (Byte.to_N c <=? Byte.to_N hi)%N.

(** ** Errors and panics *)

(** The error values the package produces or passes on.  [errorString]
    is what [errors.New] and a [fmt.Errorf] without [%w] build;
    [wrapError prefix err] is [fmt.Errorf(prefix + "%w", err)], whose
    [Unwrap] is [err].  The other constructors are the error types of
    the libraries the package calls. *)
Inductive error : Type :=
| errorString (s : string)
| wrapError (prefix : string) (err : error)
| invalidLengthError (len : nat)
| URNPrefixError (prefix : string)
| SyntaxError (invalid : option byte) (context : string) (Offset : nat)
| UnmarshalTypeError (Value : string).

(** [errors.Unwrap]. *)
Definition Unwrap (err : error) : option error :=
  match err with
  | wrapError _ cause => Some cause
  | _ => None
  end.

#[global] Instance error_eq_dec : EqDecision error.
Proof. solve_decision. Defined.

Inductive outcome (A : Type) : Type :=
| Return (a : A)
| Panic (v : error).
Arguments Return {A} a.
Arguments Panic {A} v.

(** [s[i]], [s[n:]] and [s[:n]] on a Go string.  Go panics when the
    index is out of range; every use below follows a test of [len(s)]
    that keeps it in range. *)
Definition at_ (s : string) (i : nat) : byte := bytes s !!! i.

Fixpoint slice_from (n : nat) (s : string) : string :=
  match n, s with
  | S n', String.String _ s' => slice_from n' s'
  | _, _ => s
  end.

Fixpoint slice_to (n : nat) (s : string) : string :=
  match n, s with
  | S n', String.String c s' => String.String c (slice_to n' s')
  | _, _ => EmptyString
  end.

(** ** The raw UUID primitive *)

(** The raw UUID primitive of section 6 of the specification
    ([generate], [parse], [format], equality and the [ZERO] constant).
    The package takes it from [github.com/google/uuid], which is not
    among the sources of this repository; the definitions of this
    module follow that library's [Parse], [String],
    [NewRandomFromReader] and [New], the random source being an
    explicit argument. *)
Module google_uuid.

(** [type UUID [16]byte]; a well-formed value has length 16. *)
Abbreviation UUID := (list byte) (only parsing).

(** Modelled from the spec: the distinguished [ZERO] constant of the
    raw UUID primitive; in the library [var Nil UUID], the zero value
    of the array type. *)
Definition Nil : UUID := replicate 16 x00.

(** The table [xvalues]: the value of a hexadecimal digit, 255 for
    any other byte. *)
Definition xvalues (c : byte) : byte :=
  if between "0" "9" c then u8 (Byte.to_N c - 48)
  else if between "A" "F" c then u8 (Byte.to_N c - 55)
  else if between "a" "f" c then u8 (Byte.to_N c - 87)
  else xff.

(** [xtob] converts two hexadecimal characters into a byte,
    [(b1 << 4) | b2] in eight bits, and tells whether both were
    digits. *)
Definition xtob (x1 x2 : byte) : byte * bool :=
  let b1 := xvalues x1 in
  let b2 := xvalues x2 in
  (u8 (N.lor (N.shiftl (Byte.to_N b1) 4) (Byte.to_N b2)),
   negb (bool_decide (b1 = xff)) && negb (bool_decide (b2 = xff))).

Definition ErrInvalidUUIDFormat : error := errorString "invalid UUID format".

(** [strings.EqualFold(p, "urn:uuid:")] for a [p] of nine bytes: with
    an ASCII constant of the same length in bytes, equality under
    Unicode case folding is equality of the bytes up to the case of
    ASCII letters. *)
Definition fold_eq (x y : byte) : bool :=
  bool_decide (x = y)
  || (between "A" "Z" x && bool_decide (Byte.to_N y = Byte.to_N x + 32)%N)
  || (between "A" "Z" y && bool_decide (Byte.to_N x = Byte.to_N y + 32)%N).

Fixpoint EqualFold_bytes (p q : list byte) : bool :=
  match p, q with
  | [], [] => true
  | x :: p', y :: q' => fold_eq x y && EqualFold_bytes p' q'
  | _, _ => false
  end.

Definition EqualFold (s t : string) : bool := EqualFold_bytes (bytes s) (bytes t).

(** The positions of the sixteen pairs of digits in the hyphenated form. *)
Definition offsets : list nat :=
  [0; 2; 4; 6; 9; 11; 14; 16; 19; 21; 24; 26; 28; 30; 32; 34].

(** The loop [for i, x := range [16]int{...}] of [Parse], from index [i]
    on: a pair that is not hexadecimal ends it with the bytes set so
    far. *)
Fixpoint parse_hyphenated (s : string) (i : nat) (xs : list nat) (uuid : UUID)
  : UUID * option error :=
  match xs with
  | [] => (uuid, None)
  | x :: xs' =>
      let '(v, ok) := xtob (at_ s x) (at_ s (x + 1)) in
      if negb ok then (uuid, Some ErrInvalidUUIDFormat)
      else parse_hyphenated s (S i) xs' (<[i:=v]> uuid)
  end.

(** The loop [for i := range uuid] of the 32-digit form: the byte is
    stored before [ok] is looked at. *)
Fixpoint parse_plain (s : string) (idx : list nat) (uuid : UUID)
  : UUID * option error :=
  match idx with
  | [] => (uuid, None)
  | i :: idx' =>
      let '(v, ok) := xtob (at_ s (i * 2)) (at_ s (i * 2 + 1)) in
      let uuid := <[i:=v]> uuid in
      if negb ok then (uuid, Some ErrInvalidUUIDFormat)
      else parse_plain s idx' uuid
  end.

(** The part of [Parse] after the [switch]: [s] holds at least 36
    bytes of the form [xxxxxxxx-xxxx-xxxx-xxxx-xxxxxxxxxxxx]. *)
Definition parse_tail (s : string) (uuid : UUID) : UUID * option error :=
  if negb (bool_decide (at_ s 8 = "-"%byte))
     || negb (bool_decide (at_ s 13 = "-"%byte))
     || negb (bool_decide (at_ s 18 = "-"%byte))
     || negb (bool_decide (at_ s 23 = "-"%byte))
  then (uuid, Some ErrInvalidUUIDFormat)
  else parse_hyphenated s 0 offsets uuid.

(** Modelled from the spec: [parse(text) -> Raw | Error] of the raw
    UUID primitive; in the library [func Parse(s string) (UUID, error)],
    which reads the canonical form, the same after [urn:uuid:], the
    same between two arbitrary bytes (only the middle 36 are examined),
    or 32 hexadecimal digits, and returns with its error the bytes
    read so far. *)
Definition Parse (s : string) : UUID * option error :=
  let uuid := Nil in
  let n := String.length s in
  if n =? 36 then parse_tail s uuid
  else if n =? 36 + 9 then
    if negb (EqualFold (slice_to 9 s) "urn:uuid:")
    then (uuid, Some (URNPrefixError (slice_to 9 s)))
    else parse_tail (slice_from 9 s) uuid
  else if n =? 36 + 2 then parse_tail (slice_from 1 s) uuid
  else if n =? 32 then parse_plain s (seq 0 16) uuid
  else (uuid, Some (invalidLengthError n)).

(** [hex.Encode] with its table [hextable]. *)
Definition hextable : string := "0123456789abcdef".

(** [hextable[v>>4]] and [hextable[v&0x0f]]. *)
Definition hex_hi (v : byte) : byte := at_ hextable (N.to_nat (N.shiftr (Byte.to_N v) 4)).
Definition hex_lo (v : byte) : byte := at_ hextable (N.to_nat (N.land (Byte.to_N v) 15)).

Definition hex_Encode (src : list byte) : list byte :=
  flat_map (fun v => [hex_hi v; hex_lo v]) src.

(** [encodeHex] fills the 36 bytes of the canonical form. *)
Definition encodeHex (uuid : UUID) : list byte :=
  hex_Encode (take 4 uuid) ++ ["-"%byte]
  ++ hex_Encode (take 2 (drop 4 uuid)) ++ ["-"%byte]
  ++ hex_Encode (take 2 (drop 6 uuid)) ++ ["-"%byte]
  ++ hex_Encode (take 2 (drop 8 uuid)) ++ ["-"%byte]
  ++ hex_Encode (drop 10 uuid).

(** Modelled from the spec: [format(raw) -> string] of the raw UUID
    primitive, the canonical 36-character hyphenated lower-case form;
    in the library [func (uuid UUID) String() string]. *)
Definition String (uuid : UUID) : string := string_of_bytes (encodeHex uuid).

(** The random source [rander], as the bytes it still has to deliver. *)
Abbreviation Reader := (list byte) (only parsing).

Definition EOF : error := errorString "EOF".
Definition ErrUnexpectedEOF : error := errorString "unexpected EOF".

(** [io.ReadFull(r, buf)] for a buffer of [n] bytes. *)
Definition ReadFull (r : Reader) (n : nat) : list byte * option error * Reader :=
  if bool_decide (n ≤ length r) then (take n r, None, drop n r)
  else if bool_decide (length r = 0) then ([], Some EOF, [])
  else (r, Some ErrUnexpectedEOF, []).

(** [NewRandomFromReader]: sixteen random bytes, then the version (4)
    and the variant (10) are written over bits of bytes 6 and 8. *)
Definition NewRandomFromReader (r : Reader) : UUID * option error * Reader :=
  let '(buf, err, r') := ReadFull r 16 in
  match err with
  | Some e => (Nil, Some e, r')
  | None =>
      let uuid := buf in
      let uuid := <[6 := u8 (N.lor (N.land (Byte.to_N (uuid !!! 6)) 15) 64)]> uuid in
      let uuid := <[8 := u8 (N.lor (N.land (Byte.to_N (uuid !!! 8)) 63) 128)]> uuid in
      (uuid, None, r')
  end.

(** [Must] panics when the error is not nil. *)
Definition Must (r : UUID * option error) : outcome UUID :=
  match r with
  | (_, Some err) => Panic err
  | (uuid, None) => Return uuid
  end.

(** Modelled from the spec: [generate() -> Raw] of the raw UUID
    primitive; in the library [func New() UUID], which is
    [Must(NewRandom())] and reads [rander]. *)
Definition New (r : Reader) : outcome UUID * Reader :=
  let '(uuid, err, r') := NewRandomFromReader r in
  (Must (uuid, err), r').

End google_uuid.

(** ** The JSON notation layer *)

(** The text-as-value notation of section 6 of the specification.
    The package takes it from Go's [encoding/json], which is not among
    the sources of this repository; the definitions of this module
    follow that library for the one use the package makes of it,
    [Unmarshal] into a [*string] and [Marshal] of a [string]: the
    scanner of [checkValid], state by state, the decoding of the
    top-level value, and the encoder's [appendString].  Of a
    [SyntaxError] the offending byte, the text that follows it in the
    message and the offset are kept; of an [UnmarshalTypeError] the
    field [Value]. *)
Module json.

Definition dquote : byte := x22.
Definition backslash : byte := x5c.

(** *** UTF-8 *)

(** Runes are numbers; [RuneError] is U+FFFD. *)
Definition RuneError : N := 65533.

Definition continuation (lo hi : N) (b : byte) : bool :=
  (lo <=? Byte.to_N b)%N && (Byte.to_N b <=? hi)%N.

Definition low6 (b : byte) : N := N.land (Byte.to_N b) 63.

(** [utf8.DecodeRune]: the first rune of [p] and its width in bytes;
    an invalid or short encoding is [RuneError] of width 1. *)
Definition DecodeRune (p : list byte) : N * nat :=
  match p with
  | [] => (RuneError, 0)
  | p0 :: rest =>
      let n0 := Byte.to_N p0 in
      if (n0 <? 128)%N then (n0, 1)
      else if (n0 <? 194)%N || (244 <? n0)%N then (RuneError, 1)
      else
        let sz := if (n0 <? 224)%N then 2 else if (n0 <? 240)%N then 3 else 4 in
        let lo := if (n0 =? 224)%N then 160%N else if (n0 =? 240)%N then 144%N else 128%N in
        let hi := if (n0 =? 237)%N then 159%N else if (n0 =? 244)%N then 143%N else 191%N in
        if length p <? sz then (RuneError, 1)
        else
          let b1 := rest !!! 0 in
          let b2 := rest !!! 1 in
          let b3 := rest !!! 2 in
          if negb (continuation lo hi b1) then (RuneError, 1)
          else if sz <=? 2 then
            (N.lor (N.shiftl (N.land n0 31) 6) (low6 b1), 2)
          else if negb (continuation 128 191 b2) then (RuneError, 1)
          else if sz <=? 3 then
            (N.lor (N.lor (N.shiftl (N.land n0 15) 12) (N.shiftl (low6 b1) 6))
                   (low6 b2), 3)
          else if negb (continuation 128 191 b3) then (RuneError, 1)
          else
            (N.lor (N.lor (N.lor (N.shiftl (N.land n0 7) 18) (N.shiftl (low6 b1) 12))
                          (N.shiftl (low6 b2) 6))
                   (low6 b3), 4)
  end.

(** [utf8.EncodeRune]; a surrogate or a value above U+10FFFF is
    written as [RuneError]. *)
Definition encode3 (r : N) : list byte :=
  [u8 (N.lor 224 (N.shiftr r 12));
   u8 (N.lor 128 (N.land (N.shiftr r 6) 63));
   u8 (N.lor 128 (N.land r 63))].

Definition EncodeRune (r : N) : list byte :=
  if (r <=? 127)%N then [u8 r]
  else if (r <=? 2047)%N then
    [u8 (N.lor 192 (N.shiftr r 6)); u8 (N.lor 128 (N.land r 63))]
  else if (1114111 <? r)%N || ((55296 <=? r)%N && (r <=? 57343)%N) then encode3 RuneError
  else if (r <=? 65535)%N then encode3 r
  else
    [u8 (N.lor 240 (N.shiftr r 18));
     u8 (N.lor 128 (N.land (N.shiftr r 12) 63));
     u8 (N.lor 128 (N.land (N.shiftr r 6) 63));
     u8 (N.lor 128 (N.land r 63))].

(** *** The scanner *)

Definition isSpace (c : byte) : bool :=
  bool_decide (c = " "%byte) || bool_decide (c = x09)
  || bool_decide (c = x0d) || bool_decide (c = x0a).

Definition isDigit (c : byte) : bool := between "0" "9" c.

Definition isHex (c : byte) : bool :=
  between "0" "9" c || between "a" "f" c || between "A" "F" c.

(** The bytes that make an escape of one character after a backslash. *)
Definition simple_escape (e : byte) : bool :=
  bool_decide (e = "b"%byte) || bool_decide (e = "f"%byte)
  || bool_decide (e = "n"%byte) || bool_decide (e = "r"%byte)
  || bool_decide (e = "t"%byte) || bool_decide (e = backslash)
  || bool_decide (e = "/"%byte) || bool_decide (e = dquote).

(** The values [scanContinue], ..., [scanError] a step returns. *)
Inductive opcode : Type :=
| scanContinue | scanBeginLiteral | scanBeginObject | scanObjectKey
| scanObjectValue | scanEndObject | scanBeginArray | scanArrayValue
| scanEndArray | scanSkipSpace | scanEnd | scanError.

(** The entries of the stack [parseState]. *)
Inductive parse_state : Type :=
| parseObjectKey | parseObjectValue | parseArrayValue.

(** The step functions a scanner can be in (its field [step]). *)
Inductive state : Type :=
| stateBeginValueOrEmpty | stateBeginValue | stateBeginStringOrEmpty
| stateBeginString | stateEndValue | stateEndTop
| stateInString | stateInStringEsc | stateInStringEscU
| stateInStringEscU1 | stateInStringEscU12 | stateInStringEscU123
| stateNeg | state1 | state0 | stateDot | stateDot0 | stateE | stateESign | stateE0
| stateT | stateTr | stateTru | stateF | stateFa | stateFal | stateFals
| stateN | stateNu | stateNul | stateError.

(** [type scanner struct]; the innermost entry of [parseState] is the
    head of the list, [nbytes] is the field [bytes]. *)
Record scanner : Type := mk_scanner {
  step : state;
  endTop : bool;
  parseState : list parse_state;
  err : option error;
  nbytes : nat;
}.

Definition maxNestingDepth : nat := 100 * 100.

(** The scanner after [scan.reset()], no byte read. *)
Definition reset : scanner :=
  {| step := stateBeginValue; endTop := false; parseState := []; err := None; nbytes := 0 |}.

Definition goto (s : scanner) (st : state) : scanner :=
  {| step := st; endTop := endTop s; parseState := parseState s; err := err s;
     nbytes := nbytes s |}.

Definition with_parseState (s : scanner) (ps : list parse_state) : scanner :=
  {| step := step s; endTop := endTop s; parseState := ps; err := err s;
     nbytes := nbytes s |}.

Definition at_endTop (s : scanner) : scanner :=
  {| step := stateEndTop; endTop := true; parseState := parseState s; err := err s;
     nbytes := nbytes s |}.

(** [s.error(c, context)]. *)
Definition scan_error (s : scanner) (c : byte) (context : string) : scanner * opcode :=
  ({| step := stateError; endTop := endTop s; parseState := parseState s;
      err := Some (SyntaxError (Some c) context (nbytes s));
      nbytes := nbytes s |}, scanError).

(** [s.pushParseState(c, newParseState, successState)], after [s.step]
    was set to [st]. *)
Definition pushParseState (s : scanner) (st : state) (c : byte)
    (newParseState : parse_state) (successState : opcode) : scanner * opcode :=
  let s := with_parseState (goto s st) (newParseState :: parseState s) in
  if length (parseState s) <=? maxNestingDepth then (s, successState)
  else scan_error s c "exceeded max depth".

(** [s.popParseState()]. *)
Definition popParseState (s : scanner) : scanner :=
  let s := with_parseState s (tail (parseState s)) in
  match parseState s with
  | [] => at_endTop s
  | _ => goto s stateEndValue
  end.

Definition do_stateEndTop (s : scanner) (c : byte) : scanner * opcode :=
  if negb (isSpace c) then (fst (scan_error s c "after top-level value"), scanEnd)
  else (s, scanEnd).

Definition do_stateEndValue (s : scanner) (c : byte) : scanner * opcode :=
  match parseState s with
  | [] => do_stateEndTop (at_endTop s) c
  | ps :: rest =>
      if isSpace c then (goto s stateEndValue, scanSkipSpace)
      else
        match ps with
        | parseObjectKey =>
            if bool_decide (c = ":"%byte)
            then (with_parseState (goto s stateBeginValue) (parseObjectValue :: rest),
                  scanObjectKey)
            else scan_error s c "after object key"
        | parseObjectValue =>
            if bool_decide (c = ","%byte)
            then (with_parseState (goto s stateBeginString) (parseObjectKey :: rest),
                  scanObjectValue)
            else if bool_decide (c = "}"%byte) then (popParseState s, scanEndObject)
            else scan_error s c "after object key:value pair"
        | parseArrayValue =>
            if bool_decide (c = ","%byte) then (goto s stateBeginValue, scanArrayValue)
            else if bool_decide (c = "]"%byte) then (popParseState s, scanEndArray)
            else scan_error s c "after array element"
        end
  end.

Definition do_stateBeginValue (s : scanner) (c : byte) : scanner * opcode :=
  if isSpace c then (s, scanSkipSpace)
  else if bool_decide (c = "{"%byte)
  then pushParseState s stateBeginStringOrEmpty c parseObjectKey scanBeginObject
  else if bool_decide (c = "["%byte)
  then pushParseState s stateBeginValueOrEmpty c parseArrayValue scanBeginArray
  else if bool_decide (c = dquote) then (goto s stateInString, scanBeginLiteral)
  else if bool_decide (c = "-"%byte) then (goto s stateNeg, scanBeginLiteral)
  else if bool_decide (c = "0"%byte) then (goto s state0, scanBeginLiteral)
  else if bool_decide (c = "t"%byte) then (goto s stateT, scanBeginLiteral)
  else if bool_decide (c = "f"%byte) then (goto s stateF, scanBeginLiteral)
  else if bool_decide (c = "n"%byte) then (goto s stateN, scanBeginLiteral)
  else if between "1" "9" c then (goto s state1, scanBeginLiteral)
  else scan_error s c "looking for beginning of value".

Definition do_stateBeginString (s : scanner) (c : byte) : scanner * opcode :=
  if isSpace c then (s, scanSkipSpace)
  else if bool_decide (c = dquote) then (goto s stateInString, scanBeginLiteral)
  else scan_error s c "looking for beginning of object key string".

Definition do_state0 (s : scanner) (c : byte) : scanner * opcode :=
  if bool_decide (c = "."%byte) then (goto s stateDot, scanContinue)
  else if bool_decide (c = "e"%byte) || bool_decide (c = "E"%byte)
  then (goto s stateE, scanContinue)
  else do_stateEndValue s c.

Definition do_stateESign (s : scanner) (c : byte) : scanner * opcode :=
  if isDigit c then (goto s stateE0, scanContinue)
  else scan_error s c "in exponent of numeric literal".

(** One byte of a literal [true], [false] or [null]. *)
Definition expect (s : scanner) (c want : byte) (next : state) (context : string)
  : scanner * opcode :=
  if bool_decide (c = want) then (goto s next, scanContinue)
  else scan_error s c context.

(** One hexadecimal digit of a [\u] escape. *)
Definition hex_step (s : scanner) (c : byte) (next : state) : scanner * opcode :=
  if isHex c then (goto s next, scanContinue)
  else scan_error s c "in \u hexadecimal character escape".

(** [s.step(s, c)]: the step function the scanner is in, applied to [c]. *)
Definition do_step (s : scanner) (c : byte) : scanner * opcode :=
  match step s with
  | stateBeginValueOrEmpty =>
      if isSpace c then (s, scanSkipSpace)
      else if bool_decide (c = "]"%byte) then do_stateEndValue s c
      else do_stateBeginValue s c
  | stateBeginValue => do_stateBeginValue s c
  | stateBeginStringOrEmpty =>
      if isSpace c then (s, scanSkipSpace)
      else if bool_decide (c = "}"%byte)
      then do_stateEndValue (with_parseState s (parseObjectValue :: tail (parseState s))) c
      else do_stateBeginString s c
  | stateBeginString => do_stateBeginString s c
  | stateEndValue => do_stateEndValue s c
  | stateEndTop => do_stateEndTop s c
  | stateInString =>
      if bool_decide (c = dquote) then (goto s stateEndValue, scanContinue)
      else if bool_decide (c = backslash) then (goto s stateInStringEsc, scanContinue)
      else if (Byte.to_N c <? 32)%N then scan_error s c "in string literal"
      else (s, scanContinue)
  | stateInStringEsc =>
      if simple_escape c then (goto s stateInString, scanContinue)
      else if bool_decide (c = "u"%byte) then (goto s stateInStringEscU, scanContinue)
      else scan_error s c "in string escape code"
  | stateInStringEscU => hex_step s c stateInStringEscU1
  | stateInStringEscU1 => hex_step s c stateInStringEscU12
  | stateInStringEscU12 => hex_step s c stateInStringEscU123
  | stateInStringEscU123 => hex_step s c stateInString
  | stateNeg =>
      if bool_decide (c = "0"%byte) then (goto s state0, scanContinue)
      else if between "1" "9" c then (goto s state1, scanContinue)
      else scan_error s c "in numeric literal"
  | state1 =>
      if isDigit c then (goto s state1, scanContinue) else do_state0 s c
  | state0 => do_state0 s c
  | stateDot =>
      if isDigit c then (goto s stateDot0, scanContinue)
      else scan_error s c "after decimal point in numeric literal"
  | stateDot0 =>
      if isDigit c then (s, scanContinue)
      else if bool_decide (c = "e"%byte) || bool_decide (c = "E"%byte)
      then (goto s stateE, scanContinue)
      else do_stateEndValue s c
  | stateE =>
      if bool_decide (c = "+"%byte) || bool_decide (c = "-"%byte)
      then (goto s stateESign, scanContinue)
      else do_stateESign s c
  | stateESign => do_stateESign s c
  | stateE0 =>
      if isDigit c then (s, scanContinue) else do_stateEndValue s c
  | stateT => expect s c "r" stateTr "in literal true (expecting 'r')"
  | stateTr => expect s c "u" stateTru "in literal true (expecting 'u')"
  | stateTru => expect s c "e" stateEndValue "in literal true (expecting 'e')"
  | stateF => expect s c "a" stateFa "in literal false (expecting 'a')"
  | stateFa => expect s c "l" stateFal "in literal false (expecting 'l')"
  | stateFal => expect s c "s" stateFals "in literal false (expecting 's')"
  | stateFals => expect s c "e" stateEndValue "in literal false (expecting 'e')"
  | stateN => expect s c "u" stateNu "in literal null (expecting 'u')"
  | stateNu => expect s c "l" stateNul "in literal null (expecting 'l')"
  | stateNul => expect s c "l" stateEndValue "in literal null (expecting 'l')"
  | stateError => (s, scanError)
  end.

Definition count_byte (s : scanner) : scanner :=
  {| step := step s; endTop := endTop s; parseState := parseState s; err := err s;
     nbytes := S (nbytes s) |}.

(** [s.eof()]: the error left when the input ends in state [s], if any. *)
Definition eof (s : scanner) : option error :=
  match err s with
  | Some e => Some e
  | None =>
      if endTop s then None
      else
        let s := fst (do_step s " "%byte) in
        if endTop s then None
        else match err s with
             | Some e => Some e
             | None => Some (SyntaxError None "unexpected end of JSON input" (nbytes s))
             end
  end.

(** The loop of [checkValid] from scanner [s] on. *)
Fixpoint scan_from (s : scanner) (data : list byte) : option error :=
  match data with
  | [] => eof s
  | c :: data' =>
      let '(s, op) := do_step (count_byte s) c in
      match op with
      | scanError => err s
      | _ => scan_from s data'
      end
  end.

(** [checkValid(data, scan)]: [None] when [data] is one JSON value. *)
Definition checkValid (data : list byte) : option error := scan_from reset data.

(** *** Decoding into a [*string] *)

(** The decoder's message when the input is not what [checkValid]
    accepted; the decoder panics with it. *)
Definition phasePanicMsg : string := "JSON decoder out of sync - data changing underfoot?".

(** [d.scanWhile(scanSkipSpace)]: the input from its first byte that
    is not white space. *)
Fixpoint skipSpace (data : list byte) : list byte :=
  match data with
  | c :: data' => if isSpace c then skipSpace data' else data
  | [] => []
  end.

(** [d.rescanLiteral()] inside a string: the bytes up to the closing
    quote, which is included; the byte after a backslash is skipped. *)
Fixpoint rescan_string (data : list byte) : list byte :=
  match data with
  | [] => []
  | c :: data' =>
      if bool_decide (c = backslash) then
        match data' with
        | e :: data'' => c :: e :: rescan_string data''
        | [] => [c]
        end
      else if bool_decide (c = dquote) then [c]
      else c :: rescan_string data'
  end.

Definition isNumberByte (c : byte) : bool :=
  isDigit c || bool_decide (c = "."%byte) || bool_decide (c = "e"%byte)
  || bool_decide (c = "E"%byte) || bool_decide (c = "+"%byte) || bool_decide (c = "-"%byte).

Fixpoint rescan_number (data : list byte) : list byte :=
  match data with
  | c :: data' => if isNumberByte c then c :: rescan_number data' else []
  | [] => []
  end.

(** The bytes of the literal that starts with [c], [rest] being the
    input after [c]. *)
Definition rescanLiteral (c : byte) (rest : list byte) : list byte :=
  if bool_decide (c = dquote) then c :: rescan_string rest
  else if isDigit c || bool_decide (c = "-"%byte) then c :: rescan_number rest
  else if bool_decide (c = "t"%byte) then c :: take 3 rest
  else if bool_decide (c = "f"%byte) then c :: take 4 rest
  else if bool_decide (c = "n"%byte) then c :: take 3 rest
  else [c].

(** [getu4]: the number written by the six bytes [\uXXXX] at the head
    of [s], if they are there. *)
Definition hexval (c : byte) : option N :=
  if between "0" "9" c then Some (Byte.to_N c - 48)%N
  else if between "a" "f" c then Some (Byte.to_N c - 87)%N
  else if between "A" "F" c then Some (Byte.to_N c - 55)%N
  else None.

Definition getu4 (s : list byte) : option N :=
  match s with
  | b :: u :: h1 :: h2 :: h3 :: h4 :: _ =>
      if bool_decide (b = backslash) && bool_decide (u = "u"%byte) then
        v1 ← hexval h1; v2 ← hexval h2; v3 ← hexval h3; v4 ← hexval h4;
        Some (((v1 * 16 + v2) * 16 + v3) * 16 + v4)%N
      else None
  | _ => None
  end.

(** [utf16.IsSurrogate] and [utf16.DecodeRune]. *)
Definition IsSurrogate (r : N) : bool := (55296 <=? r)%N && (r <? 57344)%N.

Definition utf16_DecodeRune (r1 r2 : N) : N :=
  if (55296 <=? r1)%N && (r1 <? 56320)%N && (56320 <=? r2)%N && (r2 <? 57344)%N
  then (N.lor (N.shiftl (r1 - 55296) 10) (r2 - 56320) + 65536)%N
  else RuneError.

(** The loop of [unquoteBytes] over the text between the quotes.  Each
    round consumes at least one byte, so [fuel] equal to the length
    of [s] is never used up. *)
Fixpoint unquote_loop (fuel : nat) (s : list byte) : option (list byte) :=
  match s, fuel with
  | [], _ => Some []
  | _, 0 => None
  | c :: rest, S fuel =>
      if bool_decide (c = backslash) then
        match rest with
        | [] => None
        | e :: rest' =>
            if bool_decide (e = dquote) || bool_decide (e = backslash)
               || bool_decide (e = "/"%byte) || bool_decide (e = "'"%byte)
            then cons e <$> unquote_loop fuel rest'
            else if bool_decide (e = "b"%byte) then cons x08 <$> unquote_loop fuel rest'
            else if bool_decide (e = "f"%byte) then cons x0c <$> unquote_loop fuel rest'
            else if bool_decide (e = "n"%byte) then cons x0a <$> unquote_loop fuel rest'
            else if bool_decide (e = "r"%byte) then cons x0d <$> unquote_loop fuel rest'
            else if bool_decide (e = "t"%byte) then cons x09 <$> unquote_loop fuel rest'
            else if bool_decide (e = "u"%byte) then
              match getu4 s with
              | None => None
              | Some rr =>
                  let s' := drop 6 s in
                  if IsSurrogate rr then
                    let dec := match getu4 s' with
                               | Some rr1 => utf16_DecodeRune rr rr1
                               | None => RuneError
                               end in
                    if negb (dec =? RuneError)%N
                    then app (EncodeRune dec) <$> unquote_loop fuel (drop 6 s')
                    else app (EncodeRune RuneError) <$> unquote_loop fuel s'
                  else app (EncodeRune rr) <$> unquote_loop fuel s'
              end
            else None
        end
      else if bool_decide (c = dquote) || (Byte.to_N c <? 32)%N then None
      else if (Byte.to_N c <? 128)%N then cons c <$> unquote_loop fuel rest
      else
        let '(rr, size) := DecodeRune s in
        app (EncodeRune rr) <$> unquote_loop fuel (drop size s)
  end.

(** [unquoteBytes]: the text a quoted literal stands for. *)
Definition unquoteBytes (s : list byte) : option (list byte) :=
  if (length s <? 2) || negb (bool_decide (head s = Some dquote))
     || negb (bool_decide (last s = Some dquote))
  then None
  else
    let s := take (length s - 2) (drop 1 s) in
    unquote_loop (length s) s.

(** [d.literalStore(item, v, false)] for a [v] of kind string, whose
    value before the call is [s]: [null] leaves it as it is. *)
Definition literalStore (item : list byte) (s : string) : string * option error :=
  match item with
  | [] => (s, Some (errorString phasePanicMsg))
  | c :: _ =>
      if bool_decide (c = "n"%byte) then (s, None)
      else if bool_decide (c = "t"%byte) || bool_decide (c = "f"%byte)
      then (s, Some (UnmarshalTypeError "bool"))
      else if bool_decide (c = dquote) then
        match unquoteBytes item with
        | Some t => (string_of_bytes t, None)
        | None => (s, Some (errorString phasePanicMsg))
        end
      else (s, Some (UnmarshalTypeError "number"))
  end.

(** Modelled from the spec: the inbound side of the text-as-value
    notation; in the library [Unmarshal(data, &s)] for a [s] of type
    [string]: the value of [s] after the call and the error.  The
    input is checked as a whole, then its top-level value is stored: a
    string literal is unquoted into [s], [null] leaves [s] as it is
    without an error, any other value is an [UnmarshalTypeError].
    Where the decoder would panic with [phasePanicMsg] the model
    returns that message as an error. *)
Definition Unmarshal (data : list byte) (s : string) : string * option error :=
  match checkValid data with
  | Some e => (s, Some e)
  | None =>
      match skipSpace data with
      | [] => (s, Some (errorString phasePanicMsg))
      | c :: rest =>
          if bool_decide (c = "["%byte) then (s, Some (UnmarshalTypeError "array"))
          else if bool_decide (c = "{"%byte) then (s, Some (UnmarshalTypeError "object"))
          else literalStore (rescanLiteral c rest) s
      end
  end.

(** *** Encoding a [string] *)

Definition hex : string := "0123456789abcdef".

(** [htmlSafeSet[b]] for [b < utf8.RuneSelf]. *)
Definition htmlSafe (b : byte) : bool :=
  (32 <=? Byte.to_N b)%N
  && negb (bool_decide (b = dquote) || bool_decide (b = "&"%byte)
           || bool_decide (b = "<"%byte) || bool_decide (b = ">"%byte)
           || bool_decide (b = backslash)).

(** The escape [appendString] writes for an ASCII byte outside
    [htmlSafeSet]. *)
Definition escape (b : byte) : list byte :=
  if bool_decide (b = backslash) || bool_decide (b = dquote) then [backslash; b]
  else if bool_decide (b = x08) then [backslash; "b"%byte]
  else if bool_decide (b = x0c) then [backslash; "f"%byte]
  else if bool_decide (b = x0a) then [backslash; "n"%byte]
  else if bool_decide (b = x0d) then [backslash; "r"%byte]
  else if bool_decide (b = x09) then [backslash; "t"%byte]
  else [backslash; "u"%byte; "0"%byte; "0"%byte;
        at_ hex (N.to_nat (N.shiftr (Byte.to_N b) 4));
        at_ hex (N.to_nat (N.land (Byte.to_N b) 15))].

(** The loop of [appendString] with [escapeHTML] set (the short
    escapes are those of Go 1.22 and later); [fuel] as in
    [unquote_loop]. *)
Fixpoint appendString_loop (fuel : nat) (src : list byte) : list byte :=
  match src, fuel with
  | [], _ => []
  | _, 0 => []
  | b :: rest, S fuel =>
      if (Byte.to_N b <? 128)%N then
        if htmlSafe b then b :: appendString_loop fuel rest
        else escape b ++ appendString_loop fuel rest
      else
        let '(c, size) := DecodeRune (take 4 src) in
        if (c =? RuneError)%N && (size =? 1) then
          (backslash :: bytes "ufffd") ++ appendString_loop fuel (drop size src)
        else if (c =? 8232)%N || (c =? 8233)%N then
          (backslash :: bytes "u202") ++ [at_ hex (N.to_nat (N.land c 15))]
          ++ appendString_loop fuel (drop size src)
        else take size src ++ appendString_loop fuel (drop size src)
  end.

Definition appendString (src : string) : list byte :=
  dquote :: appendString_loop (String.length src) (bytes src) ++ [dquote].

(** Modelled from the spec: the outbound side of the text-as-value
    notation; in the library [Marshal(s)] for a [s] of type [string],
    which has no error case. *)
Definition Marshal (s : string) : list byte * option error := (appendString s, None).

End json.

(** A JSON string literal around a text without special characters. *)
Definition quoted (s : string) : list byte := json.dquote :: bytes s ++ [json.dquote].

(** ** Messages and the store *)

(** A pointer is [nil] or the address of an object in the store. *)
Definition loc : Type := positive.

Inductive ptr (T : Type) : Type :=
| nil
| addr (l : loc).
Arguments nil {T}.
Arguments addr {T} l.

#[global] Instance ptr_eq_dec (T : Type) : EqDecision (ptr T).
Proof. solve_decision. Defined.

Module pb.
(** Modelled from the spec: the structured interchange message of
    section 6, a record type with one accessor field of type string.
    It is the message type [UUID] of this package, generated from its
    protobuf schema and not among the sources; the tests build it as
    [&UUID{Val: ...}] and read it with [GetVal]. *)
Record UUID : Type := mkUUID { Val : string }.
End pb.

Module wrapperspb.
(** Modelled from the spec: the wrapped-string message of section 6,
    a record holding one string; [wrapperspb.StringValue] of the
    protobuf library. *)
Record StringValue : Type := mkStringValue { Value : string }.
End wrapperspb.

(** The messages that exist, by address. *)
Record Store : Type := mkStore {
  uuids : gmap loc pb.UUID;
  stringValues : gmap loc wrapperspb.StringValue;
}.

Definition empty_store : Store := {| uuids := ∅; stringValues := ∅ |}.

(** Code that reads or allocates messages: a result and the store after. *)
Definition M (A : Type) : Type := Store -> A * Store.

#[global] Instance M_ret : MRet M := fun A a σ => (a, σ).
#[global] Instance M_bind : MBind M :=
  fun A B f m σ => let '(a, σ') := m σ in f a σ'.

(** [&UUID{Val: val}]: a new message at an address not in use. *)
Definition new_UUID (val : string) : M (ptr pb.UUID) :=
  fun σ =>
    let l := fresh (dom (uuids σ)) in
    (addr l, {| uuids := <[l := pb.mkUUID val]> (uuids σ); stringValues := stringValues σ |}).

(** Modelled from the spec: the accessor of the message's field; the
    generated getter [func (x *UUID) GetVal() string], which reads a
    nil message as the empty string.  A pointer a Go program holds is
    nil or the address of a live object; an address outside the store
    is read as nil does. *)
Definition GetVal (x : ptr pb.UUID) : M string :=
  fun σ =>
    (match x with
     | nil => ""
     | addr l => from_option pb.Val "" (uuids σ !! l)
     end, σ).

(** Modelled from the spec: the wrapped-string message built from a
    string; [wrapperspb.String(v)], which is [&StringValue{Value: v}]. *)
Definition wrapperspb_String (v : string) : M (ptr wrapperspb.StringValue) :=
  fun σ =>
    let l := fresh (dom (stringValues σ)) in
    (addr l, {| uuids := uuids σ;
                stringValues := <[l := wrapperspb.mkStringValue v]> (stringValues σ) |}).

(** The field access [sv.Value]. *)
Definition get_Value (sv : ptr wrapperspb.StringValue) : M string :=
  fun σ =>
    (match sv with
     | nil => ""
     | addr l => from_option wrapperspb.Value "" (stringValues σ !! l)
     end, σ).

(** ** Column values *)

(** A [driver.Value], and the [interface{}] a [sql.Scanner] is handed:
    nil or a value of one of the types [int64], [float64], [bool],
    [[]byte], [string], [time.Time] (a [float64] by its bits, a
    [time.Time] by its nanoseconds). *)
Inductive any : Type :=
| nil_any
| string_any (v : string)
| bytes_any (v : list byte)
| int64_any (v : Z)
| float64_any (bits : N)
| bool_any (v : bool)
| time_any (nanoseconds : Z).

(** The text the verb [%T] prints for a value that is not nil. *)
Definition type_name (value : any) : string :=
  match value with
  | nil_any => "<nil>"
  | string_any _ => "string"
  | bytes_any _ => "[]uint8"
  | int64_any _ => "int64"
  | float64_any _ => "float64"
  | bool_any _ => "bool"
  | time_any _ => "time.Time"
  end.

(** ** The package: validated_uuid.go *)

Module uuid.

(** [type ValidatedUUID struct { uuid.UUID }] *)
Record ValidatedUUID : Type := mkValidatedUUID { UUID : google_uuid.UUID }.

(** The composite literal [ValidatedUUID{}]. *)
Definition zero : ValidatedUUID := {| UUID := google_uuid.Nil |}.

(** [func New() ValidatedUUID] *)
Definition New (r : google_uuid.Reader) : outcome ValidatedUUID * google_uuid.Reader :=
  let '(res, r') := google_uuid.New r in
  match res with
  | Panic v => (Panic v, r')
  | Return u => (Return {| UUID := u |}, r')
  end.

(** [func Parse(s string) (ValidatedUUID, error)] *)
Definition Parse (s : string) : ValidatedUUID * option error :=
  if bool_decide (s = "") then (zero, Some (errorString "UUID cannot be empty"))
  else
    let '(parsed, err) := google_uuid.Parse s in
    match err with
    | Some err => (zero, Some (wrapError "invalid UUID format: " err))
    | None =>
        if bool_decide (parsed = google_uuid.Nil)
        then (zero, Some (errorString "UUID cannot be nil/zero value"))
        else ({| UUID := parsed |}, None)
    end.

(** [func MustParse(s string) ValidatedUUID] *)
Definition MustParse (s : string) : outcome ValidatedUUID :=
  let '(u, err) := Parse s in
  match err with
  | Some err => Panic err
  | None => Return u
  end.

(** [func FromGoogleUUID(u uuid.UUID) (ValidatedUUID, error)] *)
Definition FromGoogleUUID (u : google_uuid.UUID) : ValidatedUUID * option error :=
  if bool_decide (u = google_uuid.Nil)
  then (zero, Some (errorString "UUID cannot be nil/zero value"))
  else ({| UUID := u |}, None).

(** [func MustFromGoogleUUID(u uuid.UUID) ValidatedUUID] *)
Definition MustFromGoogleUUID (u : google_uuid.UUID) : outcome ValidatedUUID :=
  let '(result, err) := FromGoogleUUID u in
  match err with
  | Some err => Panic err
  | None => Return result
  end.

(** [func (u ValidatedUUID) IsZero() bool] *)
Definition IsZero (u : ValidatedUUID) : bool := bool_decide (UUID u = google_uuid.Nil).

(** [func (u ValidatedUUID) Validate() error] *)
Definition Validate (u : ValidatedUUID) : option error :=
  if bool_decide (UUID u = google_uuid.Nil)
  then Some (errorString "UUID cannot be nil/zero value")
  else None.

(** [func (u ValidatedUUID) String() string] *)
Definition String (u : ValidatedUUID) : string := google_uuid.String (UUID u).

(** [func (u ValidatedUUID) MarshalJSON() ([]byte, error)]; the nil
    slice is the empty list. *)
Definition MarshalJSON (u : ValidatedUUID) : list byte * option error :=
  match Validate u with
  | Some err =>
      ([], Some (wrapError "UUID validation failed during JSON marshalling: " err))
  | None => json.Marshal (google_uuid.String (UUID u))
  end.

(** [func (u *ValidatedUUID) UnmarshalJSON(data []byte) error]: the
    value of [*u] after the call and the error. *)
Definition UnmarshalJSON (u : ValidatedUUID) (data : list byte)
  : ValidatedUUID * option error :=
  let '(s, err) := json.Unmarshal data "" in
  match err with
  | Some err => (u, Some err)
  | None =>
      let '(parsed, err) := Parse s in
      match err with
      | Some err =>
          (u, Some (wrapError "UUID validation failed during JSON unmarshalling: " err))
      | None => (parsed, None)
      end
  end.

(** [func (u ValidatedUUID) Value() (driver.Value, error)] *)
Definition Value (u : ValidatedUUID) : any * option error :=
  match Validate u with
  | Some err =>
      (nil_any, Some (wrapError "UUID validation failed during database write: " err))
  | None => (string_any (google_uuid.String (UUID u)), None)
  end.

(** The end of [Scan], after the type switch has set [s]. *)
Definition Scan_string (u : ValidatedUUID) (s : string) : ValidatedUUID * option error :=
  let '(parsed, err) := Parse s in
  match err with
  | Some err => (u, Some (wrapError "UUID validation failed during database scan: " err))
  | None => (parsed, None)
  end.

(** [func (u *ValidatedUUID) Scan(value interface{}) error]: the
    value of [*u] after the call and the error. *)
Definition Scan (u : ValidatedUUID) (value : any) : ValidatedUUID * option error :=
  match value with
  | nil_any => (u, Some (errorString "UUID cannot be nil"))
  | string_any v => Scan_string u v
  | bytes_any v => Scan_string u (string_of_bytes v)
  | _ => (u, Some (errorString ("cannot scan " ++ type_name value ++ " into UUID")))
  end.

(** [func (u ValidatedUUID) ToProto() ( *UUID, error)] *)
Definition ToProto (u : ValidatedUUID) : M (ptr pb.UUID * option error) :=
  match Validate u with
  | Some err =>
      mret (nil, Some (wrapError "UUID validation failed during protobuf marshalling: " err))
  | None => p ← new_UUID (String u); mret (p, None)
  end.

(** [func (u ValidatedUUID) MustToProto() *UUID] *)
Definition MustToProto (u : ValidatedUUID) : M (outcome (ptr pb.UUID)) :=
  '(p, err) ← ToProto u;
  match err with
  | Some err => mret (Panic err)
  | None => mret (Return p)
  end.

(** [func FromProto(pb *UUID) (ValidatedUUID, error)] *)
Definition FromProto (pb : ptr pb.UUID) : M (ValidatedUUID * option error) :=
  if bool_decide (pb = nil)
  then mret (zero, Some (errorString "protobuf UUID cannot be nil"))
  else val ← GetVal pb; mret (Parse val).

(** [func MustFromProto(pb *UUID) ValidatedUUID] *)
Definition MustFromProto (pb : ptr pb.UUID) : M (outcome ValidatedUUID) :=
  '(u, err) ← FromProto pb;
  match err with
  | Some err => mret (Panic err)
  | None => mret (Return u)
  end.

(** [func (u ValidatedUUID) ToStringValue() ( *wrapperspb.StringValue, error)] *)
Definition ToStringValue (u : ValidatedUUID)
  : M (ptr wrapperspb.StringValue * option error) :=
  match Validate u with
  | Some err => mret (nil, Some (wrapError "UUID validation failed: " err))
  | None => p ← wrapperspb_String (String u); mret (p, None)
  end.

(** [func FromStringValue(sv *wrapperspb.StringValue) (ValidatedUUID, error)] *)
Definition FromStringValue (sv : ptr wrapperspb.StringValue)
  : M (ValidatedUUID * option error) :=
  if bool_decide (sv = nil)
  then mret (zero, Some (errorString "StringValue cannot be nil"))
  else val ← get_Value sv; mret (Parse val).

(** *** helpers.go *)

(** [func StringToProto(s string) ( *UUID, error)] *)
Definition StringToProto (s : string) : M (ptr pb.UUID * option error) :=
  let '(validated, err) := Parse s in
  match err with
  | Some err => mret (nil, Some err)
  | None => ToProto validated
  end.

(** [func MustStringToProto(s string) *UUID] *)
Definition MustStringToProto (s : string) : M (outcome (ptr pb.UUID)) :=
  '(p, err) ← StringToProto s;
  match err with
  | Some err => mret (Panic err)
  | None => mret (Return p)
  end.

(** [func ProtoToString(pb *UUID) (string, error)] *)
Definition ProtoToString (pb : ptr pb.UUID) : M (string * option error) :=
  '(validated, err) ← FromProto pb;
  match err with
  | Some err => mret ("", Some err)
  | None => mret (String validated, None)
  end.

(** [func MustProtoToString(pb *UUID) string] *)
Definition MustProtoToString (pb : ptr pb.UUID) : M (outcome string) :=
  '(s, err) ← ProtoToString pb;
  match err with
  | Some err => mret (Panic err)
  | None => mret (Return s)
  end.

(** [func ValidateProtoUUID(pb *UUID) error] *)
Definition ValidateProtoUUID (pb : ptr pb.UUID) : M (option error) :=
  if bool_decide (pb = nil)
  then mret (Some (errorString "protobuf UUID cannot be nil"))
  else val ← GetVal pb; mret (snd (Parse val)).

(** [func ValidateStringUUID(s string) error] *)
Definition ValidateStringUUID (s : string) : option error := snd (Parse s).

End uuid.

(** ** The vocabulary of the specification *)

(** A well-formed value of the array type [[16]byte]. *)
Definition wf (u : uuid.ValidatedUUID) : Prop := length (uuid.UUID u) = 16.

(** The error kinds of section 7 are the error values the package
    builds for them. *)
Definition EmptyInput : error := errorString "UUID cannot be empty".
Definition MalformedText (cause : error) : error := wrapError "invalid UUID format: " cause.
Definition ZeroValue : error := errorString "UUID cannot be nil/zero value".
Definition NilMessage (what : string) : error := errorString (what ++ " cannot be nil").
Definition UnsupportedColumnType (T : string) : error :=
  errorString ("cannot scan " ++ T ++ " into UUID").

(** The zero identifier in canonical form. *)
Definition zero_text : string := "00000000-0000-0000-0000-000000000000".

(** The identifier of the package's tests, as text and as a value. *)
Definition example_text : string := "550e8400-e29b-41d4-a716-446655440000".

Definition example_uuid : uuid.ValidatedUUID :=
  {| uuid.UUID := [x55; x0e; x84; x00; xe2; x9b; x41; xd4;
                   xa7; x16; x44; x66; x55; x44; x00; x00] |}.

(** Canonical UUID text: 36 bytes, hyphens at 8, 13, 18 and 23, digits
    and the letters [a] to [f] elsewhere. *)
Definition is_lower_hex (c : byte) : bool := between "0" "9" c || between "a" "f" c.

Fixpoint canonical_from (i : nat) (l : list byte) : bool :=
  match l with
  | [] => true
  | c :: l' =>
      (if bool_decide (i ∈ [8; 13; 18; 23]) then bool_decide (c = "-"%byte)
       else is_lower_hex c)
      && canonical_from (S i) l'
  end.

Definition canonical (t : string) : bool :=
  (String.length t =? 36) && canonical_from 0 (bytes t).

(** The values a public constructor returns, or a decode entry point
    writes in place, when it succeeds. *)
Inductive produced : uuid.ValidatedUUID -> Prop :=
| by_New r r' v :
    uuid.New r = (Return v, r') -> produced v
| by_Parse s v :
    uuid.Parse s = (v, None) -> produced v
| by_MustParse s v :
    uuid.MustParse s = Return v -> produced v
| by_FromGoogleUUID g v :
    uuid.FromGoogleUUID g = (v, None) -> produced v
| by_MustFromGoogleUUID g v :
    uuid.MustFromGoogleUUID g = Return v -> produced v
| by_FromProto pb σ σ' v :
    uuid.FromProto pb σ = ((v, None), σ') -> produced v
| by_MustFromProto pb σ σ' v :
    uuid.MustFromProto pb σ = (Return v, σ') -> produced v
| by_FromStringValue sv σ σ' v :
    uuid.FromStringValue sv σ = ((v, None), σ') -> produced v
| by_UnmarshalJSON u data v :
    uuid.UnmarshalJSON u data = (v, None) -> produced v
| by_Scan u value v :
    uuid.Scan u value = (v, None) -> produced v.

(** An outbound conversion behind the validation gate: when [Validate]
    fails the conversion returns [nothing] and an error that wraps the
    one of [Validate]; when it succeeds the conversion returns [output]
    and no error. *)
Definition gated {A : Type} (u : uuid.ValidatedUUID) (result : A * option error)
    (nothing output : A) : Prop :=
  match uuid.Validate u with
  | Some cause =>
      fst result = nothing /\ exists e, snd result = Some e /\ Unwrap e = Some cause
  | None => result = (output, None)
  end.

(** A byte that [appendString] writes as it is and that stands for
    itself in a JSON string literal. *)
Definition plain (c : byte) : bool := json.htmlSafe c && (Byte.to_N c <? 128)%N.

(** The scanner is inside a string literal. *)
Definition in_string (s : json.scanner) : Prop :=
  json.step s = json.stateInString /\ json.endTop s = false.

(** A byte of a multi-byte UTF-8 encoding. *)
Definition high (b : byte) : Prop := (128 <=? Byte.to_N b)%N = true.

(** The kinds of JSON value, and the kind of the top-level value of an
    input the scanner accepts, which its first byte after white space
    decides (as in the decoder's [value]). *)
Inductive json_kind : Type :=
| JNull | JBool | JNumber | JString | JArray | JObject.

#[global] Instance json_kind_eq_dec : EqDecision json_kind.
Proof. solve_decision. Defined.

Definition kind_of_byte (c : byte) : option json_kind :=
  if bool_decide (c = json.dquote) then Some JString
  else if bool_decide (c = "["%byte) then Some JArray
  else if bool_decide (c = "{"%byte) then Some JObject
  else if bool_decide (c = "n"%byte) then Some JNull
  else if bool_decide (c = "t"%byte) || bool_decide (c = "f"%byte) then Some JBool
  else if json.isDigit c || bool_decide (c = "-"%byte) then Some JNumber
  else None.

(** [None] for an input that is not one JSON value. *)
Definition top_level (data : list byte) : option json_kind :=
  match json.checkValid data with
  | Some _ => None
  | None => head (json.skipSpace data) ≫= kind_of_byte
  end.

Definition scalar (k : json_kind) : bool :=
  match k with
  | JNull | JBool | JNumber | JString => true
  | JArray | JObject => false
  end.

(** The decoding of [data] fails in the notation layer: [json.Unmarshal]
    returns an error and [Parse] is not called. *)
Definition fails_in_notation_layer (data : list byte) : Prop :=
  is_Some (snd (json.Unmarshal data "")).

(** What [UnmarshalJSON] does once the notation layer has produced the
    string [s]: the outcome of [Parse s], the error wrapped, the
    destination written on success only. *)
Definition delegate_to_Parse (context : string) (u : uuid.ValidatedUUID) (s : string)
  : uuid.ValidatedUUID * option error :=
  match uuid.Parse s with
  | (_, Some err) => (u, Some (wrapError context err))
  | (parsed, None) => (parsed, None)
  end.

(** The store [σ'] is [σ] with new messages: every message of [σ] is in
    [σ'] as it was. *)
Definition extends (σ σ' : Store) : Prop :=
  uuids σ ⊆ uuids σ' /\ stringValues σ ⊆ stringValues σ'.

(** A fallible step followed by another: the error of the first ends
    the composition, with [nothing] for a result. *)
Definition followed_by {A B : Type} (r : A * option error) (nothing : B)
    (next : A -> M (B * option error)) : M (B * option error) :=
  match snd r with
  | Some err => mret (nothing, Some err)
  | None => next (fst r)
  end.

(** The compositions the helpers of helpers.go are said to be: text to
    message is [Parse] followed by [ToProto], message to text is
    [FromProto] followed by [String]. *)
Definition Parse_then_ToProto (s : string) : M (ptr pb.UUID * option error) :=
  followed_by (uuid.Parse s) nil uuid.ToProto.

Definition FromProto_then_String (pb : ptr pb.UUID) : M (string * option error) :=
  r ← uuid.FromProto pb;
  followed_by r "" (fun v => mret (uuid.String v, None)).

(** ** Further vocabulary *)

(** The lengths of the four notations [Parse] reads: 32 digits, the
    hyphenated form, the same between two bytes, the same after
    [urn:uuid:]. *)
Definition accepted_lengths : list nat := [32; 36; 38; 45].

(** The lower-case form of an ASCII letter; any other byte is itself. *)
Definition lower (c : byte) : byte :=
  if between "A" "Z" c then u8 (Byte.to_N c + 32) else c.

(** Two texts that differ in the case of ASCII letters only. *)
Definition same_up_to_case (s t : string) : Prop :=
  lower <$> bytes s = lower <$> bytes t.

(** Every byte, in order. *)
Definition all_bytes : list byte := (fun n => u8 (N.of_nat n)) <$> seq 0 256.

(** The version and the variant of a raw identifier: the high four
    bits of byte 6 and the high two bits of byte 8. *)
Definition version (g : list byte) : N := N.shiftr (Byte.to_N (g !!! 6)) 4.
Definition variant (g : list byte) : N := N.shiftr (Byte.to_N (g !!! 8)) 6.

(** A text with its ASCII letters in lower case. *)
Definition to_lower (t : string) : string := string_of_bytes (lower <$> bytes t).

(** The method [Error()] of an error value: the text of an
    [errorString], the prefix followed by the text of the wrapped
    error for a [wrapError]; the messages of the libraries' own error
    types are a parameter. *)
Section messages.
Variable library_message : error -> string.


End messages.



(** * Properties *)

(** ** Bytes and strings *)

Lemma length_string_of_bytes (l : list byte) :
  String.length (string_of_bytes l) = length l.
Proof.
  unfold string_of_bytes, string_of_list_byte.
  induction l as [|b l IH]; simpl; congruence.
Qed.

Lemma length_bytes (s : string) : length (bytes s) = String.length s.
Proof.
  unfold bytes, list_byte_of_string.
  induction s as [|c s IH]; simpl; congruence.
Qed.

Lemma bytes_string_of_bytes (l : list byte) : bytes (string_of_bytes l) = l.
Proof. apply list_byte_of_string_of_list_byte. Qed.

Lemma string_of_bytes_bytes (s : string) : string_of_bytes (bytes s) = s.
Proof. apply string_of_list_byte_of_string. Qed.

(** ** The raw UUID primitive *)

Module google_uuid_facts.
Import google_uuid.

(** Decoding the two digits of a byte gives the byte back. *)
Lemma xtob_hex (b : byte) : xtob (hex_hi b) (hex_lo b) = (b, true).
Proof. destruct b; vm_compute; reflexivity. Qed.

(** Two lower-case digits are the digits of the byte they decode to. *)
Lemma hex_xtob (c1 c2 : byte) :
  is_lower_hex c1 = true -> is_lower_hex c2 = true ->
  hex_hi (fst (xtob c1 c2)) = c1 /\ hex_lo (fst (xtob c1 c2)) = c2.
Proof.
  intros H1 H2.
  destruct c1; try (cbv in H1; discriminate H1);
    destruct c2; try (cbv in H2; discriminate H2);
    vm_compute; split; reflexivity.
Qed.

Lemma encodeHex_16 b0 b1 b2 b3 b4 b5 b6 b7 b8 b9 b10 b11 b12 b13 b14 b15 :
  encodeHex [b0; b1; b2; b3; b4; b5; b6; b7; b8; b9; b10; b11; b12; b13; b14; b15] =
  [hex_hi b0; hex_lo b0; hex_hi b1; hex_lo b1; hex_hi b2; hex_lo b2; hex_hi b3;
   hex_lo b3; "-"%byte; hex_hi b4; hex_lo b4; hex_hi b5; hex_lo b5; "-"%byte;
   hex_hi b6; hex_lo b6; hex_hi b7; hex_lo b7; "-"%byte; hex_hi b8; hex_lo b8;
   hex_hi b9; hex_lo b9; "-"%byte; hex_hi b10; hex_lo b10; hex_hi b11; hex_lo b11;
   hex_hi b12; hex_lo b12; hex_hi b13; hex_lo b13; hex_hi b14; hex_lo b14; hex_hi
   b15; hex_lo b15].
Proof. reflexivity. Qed.

Lemma length_16_inv (u : UUID) :
  length u = 16 ->
  exists b0 b1 b2 b3 b4 b5 b6 b7 b8 b9 b10 b11 b12 b13 b14 b15,
    u = [b0; b1; b2; b3; b4; b5; b6; b7; b8; b9; b10; b11; b12; b13; b14; b15].
Proof.
  intros Hlen.
  destruct u as [|b0 [|b1 [|b2 [|b3 [|b4 [|b5 [|b6 [|b7 [|b8 [|b9 [|b10 [|b11 [|b12 [|b13 [|b14 [|b15 [|? ?]]]]]]]]]]]]]]]]];
    try discriminate Hlen.
  repeat eexists.
Qed.

Lemma length_String (u : UUID) : length u = 16 -> String.length (String u) = 36.
Proof.
  intros Hlen. destruct (length_16_inv u Hlen) as (? & ? & ? & ? & ? & ? & ? & ? & ? & ? & ? & ? & ? & ? & ? & ? & ->).
  unfold String. now rewrite length_string_of_bytes, encodeHex_16.
Qed.

(** [Parse] reads back what [String] writes. *)
Lemma Parse_of_String (u : UUID) : length u = 16 -> Parse (String u) = (u, None).
Proof.
  intros Hlen. unfold Parse. rewrite (length_String u Hlen). cbn [Nat.eqb].
  destruct (length_16_inv u Hlen) as (? & ? & ? & ? & ? & ? & ? & ? & ? & ? & ? & ? & ? & ? & ? & ? & ->).
  unfold parse_tail, String, at_.
  rewrite !bytes_string_of_bytes, encodeHex_16.
  cbn [lookup_total list_lookup_total].
  rewrite !bool_decide_eq_true_2 by reflexivity. cbn [negb orb].
  unfold offsets. cbn [parse_hyphenated]. unfold at_.
  rewrite !bytes_string_of_bytes.
  cbn [Nat.add lookup_total list_lookup_total].
  rewrite !xtob_hex. reflexivity.
Qed.

Ltac split_canonical Hc :=
  repeat match type of Hc with
    | (_ && _ = true) =>
        let H := fresh "H" in
        apply andb_prop in Hc as [H Hc];
        match type of H with
        | (if ?b then _ else _) = true =>
            let b' := eval vm_compute in b in change b with b' in H; cbv iota in H
        end
    end.

(** A canonical text is the text of the sixteen bytes its digits
    spell. *)
Lemma canonical_String (t : string) :
  canonical t = true -> exists u, length u = 16 /\ t = String u.
Proof.
  unfold canonical. intros [Hlen Hc]%andb_prop.
  apply Nat.eqb_eq in Hlen. rewrite <- length_bytes in Hlen.
  rewrite <- (string_of_bytes_bytes t).
  destruct (bytes t) as [|a0 [|a1 [|a2 [|a3 [|a4 [|a5 [|a6 [|a7 [|a8 [|a9 [|a10 [|a11 [|a12 [|a13
    [|a14 [|a15 [|a16 [|a17 [|a18 [|a19 [|a20 [|a21 [|a22 [|a23 [|a24 [|a25 [|a26
    [|a27 [|a28 [|a29 [|a30 [|a31 [|a32 [|a33 [|a34 [|a35 [|?
    ?]]]]]]]]]]]]]]]]]]]]]]]]]]]]]]]]]]]]];
    try discriminate Hlen.
  clear Hlen. cbn [canonical_from] in Hc. split_canonical Hc. clear Hc.
  repeat match goal with
         | H : bool_decide (_ = _) = true |- _ => apply bool_decide_eq_true in H; subst
         end.
  exists [fst (xtob a0 a1); fst (xtob a2 a3); fst (xtob a4 a5); fst (xtob a6 a7);
          fst (xtob a9 a10); fst (xtob a11 a12); fst (xtob a14 a15); fst (xtob a16
          a17); fst (xtob a19 a20); fst (xtob a21 a22); fst (xtob a24 a25); fst
          (xtob a26 a27); fst (xtob a28 a29); fst (xtob a30 a31); fst (xtob a32
          a33); fst (xtob a34 a35)].
  split; [reflexivity|]. unfold String. rewrite encodeHex_16.
  repeat match goal with
         | H1 : is_lower_hex ?x = true, H2 : is_lower_hex ?y = true
           |- context [hex_hi (fst (xtob ?x ?y))] =>
             destruct (hex_xtob x y H1 H2) as [-> ->]; clear H1 H2
         end.
  reflexivity.
Qed.

Lemma parse_hyphenated_length s xs : forall i uuid,
  length (fst (parse_hyphenated s i xs uuid)) = length uuid.
Proof.
  induction xs as [|x xs IH]; intros i uuid; cbn [parse_hyphenated]; [reflexivity|].
  destruct (xtob _ _) as [v []]; cbn [negb]; [|reflexivity].
  now rewrite IH, length_insert.
Qed.

Lemma parse_plain_length s idx : forall uuid,
  length (fst (parse_plain s idx uuid)) = length uuid.
Proof.
  induction idx as [|i idx IH]; intros uuid; cbn [parse_plain]; [reflexivity|].
  destruct (xtob _ _) as [v []]; cbn [negb fst].
  - now rewrite IH, length_insert.
  - apply length_insert.
Qed.

(** Whatever [Parse] returns has sixteen bytes. *)
Lemma Parse_length (s : string) : length (fst (Parse s)) = 16.
Proof.
  assert (Htail : forall s', length (fst (parse_tail s' Nil)) = 16).
  { intros s'. unfold parse_tail. destruct (_ || _); [reflexivity|].
    now rewrite parse_hyphenated_length. }
  unfold Parse.
  repeat match goal with
         | |- context [if ?b then _ else _] => destruct b
         end;
    try apply Htail; try reflexivity.
  now rewrite parse_plain_length.
Qed.

(** The version bits make byte 6 of a new UUID differ from zero. *)
Lemma version_byte (b : byte) : u8 (N.lor (N.land (Byte.to_N b) 15) 64) <> x00.
Proof. destruct b; vm_compute; discriminate. Qed.

Lemma NewRandomFromReader_ok r uuid r' :
  NewRandomFromReader r = (uuid, None, r') -> length uuid = 16 /\ uuid <> Nil.
Proof.
  unfold NewRandomFromReader, ReadFull.
  case_bool_decide as Hr; [|case_bool_decide; discriminate].
  intros [= <- <-].
  assert (Hlen : length (take 16 r) = 16) by (rewrite length_take; lia).
  split; [now rewrite !length_insert|].
  intros Heq. apply (f_equal (fun l => l !! 6)) in Heq.
  rewrite list_lookup_insert_ne in Heq by discriminate.
  rewrite list_lookup_insert_eq in Heq by lia.
  injection Heq as Heq. now apply version_byte in Heq.
Qed.

(** [New] returns whenever the random source delivers sixteen bytes. *)
Lemma raw_New_returns r :
  16 <= length r -> exists uuid, New r = (Return uuid, drop 16 r).
Proof.
  intros Hr. unfold New, NewRandomFromReader, ReadFull.
  rewrite bool_decide_eq_true_2 by exact Hr. cbn. eauto.
Qed.

End google_uuid_facts.

(** ** The JSON notation layer *)

Module json_facts.
Import json.

Lemma plain_inv (c : byte) :
  plain c = true ->
  c <> dquote /\ c <> backslash /\ (Byte.to_N c <? 32)%N = false
  /\ (Byte.to_N c <? 128)%N = true /\ htmlSafe c = true.
Proof. destruct c; intros H; cbv in H; try discriminate H; repeat split; discriminate. Qed.

Lemma appendString_plain (l : list byte) : forall fuel,
  Forall (fun c => plain c = true) l -> length l <= fuel ->
  appendString_loop fuel l = l.
Proof.
  induction l as [|c l IH]; intros fuel Hl Hfuel; [now destruct fuel|].
  destruct fuel as [|fuel]; [cbn in Hfuel; lia|].
  apply Forall_cons in Hl as [Hc Hl].
  destruct (plain_inv c Hc) as (_ & _ & _ & Hascii & Hsafe).
  cbn [appendString_loop]. rewrite Hascii, Hsafe. f_equal.
  apply IH; [assumption|cbn in Hfuel; lia].
Qed.

Lemma unquote_plain (l : list byte) : forall fuel,
  Forall (fun c => plain c = true) l -> length l <= fuel ->
  unquote_loop fuel l = Some l.
Proof.
  induction l as [|c l IH]; intros fuel Hl Hfuel; [now destruct fuel|].
  destruct fuel as [|fuel]; [cbn in Hfuel; lia|].
  apply Forall_cons in Hl as [Hc Hl].
  destruct (plain_inv c Hc) as (Hq & Hb & Hctl & Hascii & _).
  cbn [unquote_loop].
  rewrite (bool_decide_eq_false_2 _ Hb), (bool_decide_eq_false_2 _ Hq), Hctl, Hascii.
  cbn [orb]. rewrite IH; [reflexivity|assumption|cbn in Hfuel; lia].
Qed.

Lemma rescan_string_plain (l rest : list byte) :
  Forall (fun c => plain c = true) l ->
  rescan_string (l ++ dquote :: rest) = l ++ [dquote].
Proof.
  induction 1 as [|c l Hc _ IH]; [reflexivity|].
  destruct (plain_inv c Hc) as (Hq & Hb & _).
  cbn [rescan_string app].
  rewrite (bool_decide_eq_false_2 _ Hb), (bool_decide_eq_false_2 _ Hq).
  now rewrite IH.
Qed.

(** Inside a string literal the scanner passes over plain bytes. *)
Lemma scan_from_plain (l rest : list byte) : forall s,
  Forall (fun c => plain c = true) l -> step s = stateInString ->
  exists s', scan_from s (l ++ rest) = scan_from s' rest
             /\ step s' = stateInString /\ parseState s' = parseState s
             /\ endTop s' = endTop s /\ err s' = err s.
Proof.
  induction l as [|c l IH]; intros s Hl Hs; [now exists s|].
  apply Forall_cons in Hl as [Hc Hl].
  destruct (plain_inv c Hc) as (Hq & Hb & Hctl & _).
  cbn [scan_from app]. unfold do_step. cbn [count_byte step]. rewrite Hs.
  rewrite (bool_decide_eq_false_2 _ Hq), (bool_decide_eq_false_2 _ Hb), Hctl.
  destruct (IH (count_byte s) Hl Hs) as (s' & -> & ? & ? & ? & ?).
  now exists s'.
Qed.

Lemma checkValid_quoted (l : list byte) :
  Forall (fun c => plain c = true) l -> checkValid (dquote :: l ++ [dquote]) = None.
Proof.
  intros Hl. unfold checkValid. cbn [scan_from].
  change (do_step (count_byte reset) dquote)
    with (goto (count_byte reset) stateInString, scanBeginLiteral).
  destruct (scan_from_plain l [dquote] (goto (count_byte reset) stateInString) Hl eq_refl)
    as (s' & -> & Hs & Hps & Het & Herr).
  cbn [scan_from]. unfold do_step. cbn [count_byte step]. rewrite Hs.
  rewrite bool_decide_eq_true_2 by reflexivity.
  destruct s' as [st et ps er nb]. cbn in Hs, Hps, Het, Herr. subst. reflexivity.
Qed.

Lemma unquoteBytes_between (l : list byte) :
  unquoteBytes (dquote :: l ++ [dquote]) = unquote_loop (length l) l.
Proof.
  unfold unquoteBytes.
  assert (Hlen : length (dquote :: l ++ [dquote]) = S (S (length l)))
    by (cbn; rewrite length_app; cbn; lia).
  rewrite Hlen. cbn [Nat.ltb Nat.leb Nat.sub].
  rewrite (bool_decide_eq_true_2 (head _ = _)) by reflexivity.
  rewrite (bool_decide_eq_true_2 (last _ = _)).
  2:{ change (dquote :: l ++ [dquote]) with ((dquote :: l) ++ [dquote]). apply last_snoc. }
  cbn [negb orb drop]. now rewrite Nat.sub_0_r, drop_0, take_app_length.
Qed.

Lemma unquoteBytes_quoted (l : list byte) :
  Forall (fun c => plain c = true) l -> unquoteBytes (dquote :: l ++ [dquote]) = Some l.
Proof. intros Hl. rewrite unquoteBytes_between. now apply unquote_plain. Qed.

Lemma Unmarshal_quoted (s t : string) :
  Forall (fun c => plain c = true) (bytes s) -> Unmarshal (quoted s) t = (s, None).
Proof.
  intros Hl. unfold Unmarshal, quoted. rewrite (checkValid_quoted _ Hl).
  cbn [skipSpace]. change (isSpace dquote) with false. cbv iota.
  change (bool_decide (dquote = "["%byte)) with false.
  change (bool_decide (dquote = "{"%byte)) with false. cbv iota.
  unfold rescanLiteral. rewrite bool_decide_eq_true_2 by reflexivity.
  rewrite (rescan_string_plain _ [] Hl).
  unfold literalStore.
  change (bool_decide (dquote = "n"%byte)) with false.
  change (bool_decide (dquote = "t"%byte)) with false.
  change (bool_decide (dquote = "f"%byte)) with false. cbn [orb].
  rewrite bool_decide_eq_true_2 by reflexivity.
  rewrite (unquoteBytes_quoted _ Hl). now rewrite string_of_bytes_bytes.
Qed.

Lemma Marshal_plain (s : string) :
  Forall (fun c => plain c = true) (bytes s) -> Marshal s = (quoted s, None).
Proof.
  intros Hl. unfold Marshal, appendString, quoted.
  rewrite appendString_plain; [reflexivity|assumption|now rewrite length_bytes].
Qed.

(** Before the value the scanner passes over white space. *)
Lemma scan_from_skipSpace (data : list byte) : forall s,
  step s = stateBeginValue ->
  exists s', scan_from s data = scan_from s' (skipSpace data)
             /\ step s' = stateBeginValue /\ parseState s' = parseState s
             /\ endTop s' = endTop s /\ err s' = err s.
Proof.
  induction data as [|c data IH]; intros s Hs; [now exists s|].
  cbn [skipSpace]. destruct (isSpace c) eqn:Hc; [|now exists s].
  cbn [scan_from]. unfold do_step. cbn [count_byte step]. rewrite Hs.
  unfold do_stateBeginValue. rewrite Hc.
  destruct (IH (count_byte s) Hs) as (s' & -> & ? & ? & ? & ?).
  now exists s'.
Qed.

Lemma skipSpace_head (data : list byte) (c : byte) (rest : list byte) :
  skipSpace data = c :: rest -> isSpace c = false.
Proof.
  induction data as [|d data IH]; [discriminate|].
  cbn [skipSpace]. destruct (isSpace d) eqn:Hd; [exact IH|].
  now intros [= <- _].
Qed.

(** A byte that starts no value is an error where a value is expected. *)
Lemma no_kind_rejected (s : scanner) (c : byte) :
  step s = stateBeginValue -> isSpace c = false -> kind_of_byte c = None ->
  exists s' e, do_step s c = (s', scanError) /\ err s' = Some e.
Proof.
  intros Hs Hc Hk. unfold do_step, do_stateBeginValue. rewrite Hs, Hc.
  destruct c; cbv in Hk; try discriminate Hk; cbn; eauto.
Qed.

(** An input the scanner accepts has a top-level value. *)
Lemma valid_has_kind (data : list byte) :
  checkValid data = None -> is_Some (top_level data).
Proof.
  unfold top_level. intros Hv. rewrite Hv.
  unfold checkValid in Hv.
  destruct (scan_from_skipSpace data reset eq_refl) as (s & Hscan & Hs & Hps & Het & Herr).
  rewrite Hscan in Hv. clear Hscan.
  destruct (skipSpace data) as [|c rest] eqn:Hsk.
  - exfalso. destruct s as [st et ps er nb]. cbn in Hs, Hps, Het, Herr. subst.
    discriminate Hv.
  - cbn [head mbind option_bind].
    destruct (kind_of_byte c) eqn:Hk; [eauto|]. exfalso.
    apply skipSpace_head in Hsk.
    destruct (no_kind_rejected (count_byte s) c Hs Hsk Hk) as (s' & e & Hstep & He).
    cbn [scan_from] in Hv. rewrite Hstep, He in Hv. discriminate Hv.
Qed.

Ltac scan_step H :=
  cbn [scan_from] in H; unfold do_step in H; cbn [step count_byte goto] in H.

(** One byte of a string literal the scanner accepts. *)
Lemma in_string_step (s : scanner) (c : byte) (rest : list byte) :
  in_string s -> scan_from s (c :: rest) = None ->
  c = dquote
  \/ (c = backslash /\ exists e rest',
        rest = e :: rest'
        /\ ((simple_escape e = true /\ exists s', in_string s' /\ scan_from s' rest' = None)
            \/ (e = "u"%byte /\ exists h1 h2 h3 h4 rest4 s',
                  rest' = h1 :: h2 :: h3 :: h4 :: rest4
                  /\ isHex h1 = true /\ isHex h2 = true
                  /\ isHex h3 = true /\ isHex h4 = true
                  /\ in_string s' /\ scan_from s' rest4 = None)))
  \/ (c <> dquote /\ c <> backslash /\ (Byte.to_N c <? 32)%N = false
      /\ exists s', in_string s' /\ scan_from s' rest = None).
Proof.
  intros [Hs Het] H. destruct s as [st et ps er nb]. cbn in Hs, Het. subst st et.
  scan_step H.
  case_bool_decide as Hq; [now left|]. right.
  case_bool_decide as Hb.
  - left. split; [assumption|].
    destruct rest as [|e rest'].
    { exfalso. revert H. cbn [scan_from]. unfold eof. cbn. now destruct er. }
    exists e, rest'. split; [reflexivity|].
    scan_step H.
    destruct (simple_escape e) eqn:He.
    { left. split; [reflexivity|]. eexists. split; [|exact H]. now split. }
    right. case_bool_decide as Hu; [|discriminate H]. split; [assumption|].
    destruct rest' as [|h1 rest'].
    { exfalso. revert H. cbn [scan_from]. unfold eof. cbn. now destruct er. }
    scan_step H. unfold hex_step in H. destruct (isHex h1) eqn:Hh1; [|discriminate H].
    cbn [goto step] in H.
    destruct rest' as [|h2 rest'].
    { exfalso. revert H. cbn [scan_from]. unfold eof. cbn. now destruct er. }
    scan_step H. unfold hex_step in H. destruct (isHex h2) eqn:Hh2; [|discriminate H].
    cbn [goto step] in H.
    destruct rest' as [|h3 rest'].
    { exfalso. revert H. cbn [scan_from]. unfold eof. cbn. now destruct er. }
    scan_step H. unfold hex_step in H. destruct (isHex h3) eqn:Hh3; [|discriminate H].
    cbn [goto step] in H.
    destruct rest' as [|h4 rest'].
    { exfalso. revert H. cbn [scan_from]. unfold eof. cbn. now destruct er. }
    scan_step H. unfold hex_step in H. destruct (isHex h4) eqn:Hh4; [|discriminate H].
    cbn [goto step] in H.
    exists h1, h2, h3, h4, rest'. eexists. split; [reflexivity|].
    repeat (split; [assumption|]). split; [|exact H]. now split.
  - right. destruct (Byte.to_N c <? 32)%N eqn:Hctl; [discriminate H|].
    repeat split; try assumption. eexists. split; [|exact H]. now split.
Qed.

Lemma high_inv (b : byte) :
  high b ->
  b <> dquote /\ b <> backslash /\ (Byte.to_N b <? 32)%N = false
  /\ (Byte.to_N b <? 128)%N = false.
Proof.
  unfold high. intros H. destruct b; cbv in H; try discriminate H;
    repeat split; discriminate.
Qed.

Lemma isHex_inv (b : byte) : isHex b = true -> b <> dquote /\ b <> backslash /\ is_Some (hexval b).
Proof.
  intros H. destruct b; cbv in H; try discriminate H; repeat split; try discriminate;
    cbv; eauto.
Qed.

Lemma hexval_isHex (b : byte) (n : N) : hexval b = Some n -> isHex b = true.
Proof. destruct b; cbv; intros H; try discriminate H; reflexivity. Qed.

Lemma simple_escape_inv (e : byte) :
  simple_escape e = true ->
  exists x, forall fuel body,
    unquote_loop (S fuel) (backslash :: e :: body) = cons x <$> unquote_loop fuel body.
Proof.
  intros H. destruct e; cbv in H; try discriminate H; eexists; intros; reflexivity.
Qed.

(** [rescan_string] keeps a byte that is no quote and no backslash, and
    the two bytes of an escape. *)
Lemma rescan_string_cons (r : list byte) (k : byte) (l : list byte) :
  rescan_string r = k :: l -> k <> backslash -> k <> dquote ->
  exists r', r = k :: r' /\ rescan_string r' = l.
Proof.
  destruct r as [|c r]; [discriminate|]. cbn [rescan_string].
  case_bool_decide as Hb.
  - subst c. destruct r; intros [= <- _] ?; contradiction.
  - case_bool_decide as Hq; [now intros [= <- _] ? ?|].
    intros [= <- <-] _ _. eauto.
Qed.

Lemma rescan_string_esc (r : list byte) (e : byte) (l : list byte) :
  rescan_string r = backslash :: e :: l ->
  exists r', r = backslash :: e :: r' /\ rescan_string r' = l.
Proof.
  destruct r as [|c r]; [discriminate|]. cbn [rescan_string].
  case_bool_decide as Hb.
  - subst c. destruct r as [|e' r]; [discriminate|]. intros [= <- <-]. eauto.
  - case_bool_decide as Hq; [discriminate|]. intros [= -> _]. contradiction.
Qed.

Lemma getu4_inv (l : list byte) (r : N) :
  getu4 l = Some r ->
  exists k1 k2 k3 k4 l',
    l = backslash :: "u"%byte :: k1 :: k2 :: k3 :: k4 :: l'
    /\ isHex k1 = true /\ isHex k2 = true /\ isHex k3 = true /\ isHex k4 = true.
Proof.
  unfold getu4.
  destruct l as [|b [|u [|k1 [|k2 [|k3 [|k4 l']]]]]]; try discriminate.
  case_bool_decide as Hb; [|discriminate]. case_bool_decide as Hu; [|discriminate].
  cbn [andb]. subst b u.
  destruct (hexval k1) eqn:H1; [|discriminate].
  destruct (hexval k2) eqn:H2; [|discriminate].
  destruct (hexval k3) eqn:H3; [|discriminate].
  destruct (hexval k4) eqn:H4; [|discriminate].
  intros _. exists k1, k2, k3, k4, l'.
  split; [reflexivity|]. repeat split; eapply hexval_isHex; eassumption.
Qed.

Lemma getu4_hex (h1 h2 h3 h4 : byte) (l : list byte) :
  isHex h1 = true -> isHex h2 = true -> isHex h3 = true -> isHex h4 = true ->
  is_Some (getu4 (backslash :: "u"%byte :: h1 :: h2 :: h3 :: h4 :: l)).
Proof.
  intros (_ & _ & [v1 H1])%isHex_inv (_ & _ & [v2 H2])%isHex_inv
         (_ & _ & [v3 H3])%isHex_inv (_ & _ & [v4 H4])%isHex_inv.
  unfold getu4. rewrite !bool_decide_eq_true_2 by reflexivity.
  cbn [andb]. rewrite H1, H2, H3, H4. cbn. eauto.
Qed.

(** The width [DecodeRune] reports covers bytes of the encoding only. *)
Lemma DecodeRune_width (c : byte) (p : list byte) (rr : N) (size : nat) :
  high c -> DecodeRune (c :: p) = (rr, size) ->
  size = 1
  \/ (size = 2 /\ exists b1 p', p = b1 :: p' /\ high b1)
  \/ (size = 3 /\ exists b1 b2 p', p = b1 :: b2 :: p' /\ high b1 /\ high b2)
  \/ (size = 4 /\ exists b1 b2 b3 p',
        p = b1 :: b2 :: b3 :: p' /\ high b1 /\ high b2 /\ high b3).
Proof.
  intros Hc. unfold DecodeRune.
  assert (Hcont : forall lo hi b, (128 <=? lo)%N = true -> continuation lo hi b = true -> high b).
  { unfold continuation, high. intros lo hi b Hlo [H1 _]%andb_prop.
    apply N.leb_le in Hlo, H1. apply N.leb_le. lia. }
  destruct (Byte.to_N c <? 128)%N; [intros [= _ <-]; now left|].
  destruct (_ || _); [intros [= _ <-]; now left|].
  set (sz := if (Byte.to_N c <? 224)%N then 2 else if (Byte.to_N c <? 240)%N then 3 else 4).
  set (lo := if (Byte.to_N c =? 224)%N then 160%N else if (Byte.to_N c =? 240)%N then 144%N else 128%N).
  set (hi := if (Byte.to_N c =? 237)%N then 159%N else if (Byte.to_N c =? 244)%N then 143%N else 191%N).
  assert (Hlo : (128 <=? lo)%N = true) by (unfold lo; now repeat destruct (_ =? _)%N).
  destruct (length (c :: p) <? sz) eqn:Hlen; [intros [= _ <-]; now left|].
  apply Nat.ltb_ge in Hlen. cbn [length] in Hlen.
  destruct (continuation lo hi (p !!! 0)) eqn:H1; cbn [negb]; [|intros [= _ <-]; now left].
  apply (Hcont _ _ _ Hlo) in H1.
  destruct (sz <=? 2) eqn:Hsz2.
  { intros [= _ <-]. right. left. split; [reflexivity|].
    destruct p as [|b1 p']; [exfalso; unfold sz in Hlen; repeat destruct (_ <? _)%N; cbn in Hlen; lia|].
    now exists b1, p'. }
  apply Nat.leb_gt in Hsz2.
  destruct (continuation 128 191 (p !!! 1)) eqn:H2; cbn [negb]; [|intros [= _ <-]; now left].
  apply (Hcont 128%N 191%N _ eq_refl) in H2.
  destruct (sz <=? 3) eqn:Hsz3.
  { intros [= _ <-]. right. right. left. split; [reflexivity|].
    destruct p as [|b1 [|b2 p']]; try (exfalso; cbn in Hlen; lia).
    now exists b1, b2, p'. }
  apply Nat.leb_gt in Hsz3.
  destruct (continuation 128 191 (p !!! 2)) eqn:H3; cbn [negb]; [|intros [= _ <-]; now left].
  apply (Hcont 128%N 191%N _ eq_refl) in H3.
  intros [= _ <-]. right. right. right. split; [reflexivity|].
  destruct p as [|b1 [|b2 [|b3 p']]]; try (exfalso; cbn in Hlen; lia).
  now exists b1, b2, b3, p'.
Qed.

Lemma rescan_string_pass (c : byte) (r : list byte) :
  c <> backslash -> c <> dquote -> rescan_string (c :: r) = c :: rescan_string r.
Proof.
  intros Hb Hq. cbn [rescan_string].
  now rewrite (bool_decide_eq_false_2 _ Hb), (bool_decide_eq_false_2 _ Hq).
Qed.

Lemma rescan_string_skip (e : byte) (r : list byte) :
  rescan_string (backslash :: e :: r) = backslash :: e :: rescan_string r.
Proof. reflexivity. Qed.

Lemma unquote_ascii (c : byte) (l : list byte) (fuel : nat) :
  c <> dquote -> c <> backslash -> (Byte.to_N c <? 32)%N = false ->
  (Byte.to_N c <? 128)%N = true ->
  unquote_loop (S fuel) (c :: l) = cons c <$> unquote_loop fuel l.
Proof.
  intros Hq Hb Hctl Hascii. cbn [unquote_loop].
  now rewrite (bool_decide_eq_false_2 _ Hb), (bool_decide_eq_false_2 _ Hq), Hctl, Hascii.
Qed.

Lemma unquote_high (c : byte) (l : list byte) (fuel : nat) :
  high c ->
  unquote_loop (S fuel) (c :: l)
  = app (EncodeRune (fst (DecodeRune (c :: l))))
      <$> unquote_loop fuel (drop (snd (DecodeRune (c :: l))) (c :: l)).
Proof.
  intros (Hq & Hb & Hctl & Hascii)%high_inv. cbn [unquote_loop].
  rewrite (bool_decide_eq_false_2 _ Hb), (bool_decide_eq_false_2 _ Hq), Hctl, Hascii.
  cbn [orb]. now destruct (DecodeRune (c :: l)).
Qed.

Lemma unquote_u (l : list byte) (fuel : nat) :
  unquote_loop (S fuel) (backslash :: "u"%byte :: l)
  = match getu4 (backslash :: "u"%byte :: l) with
    | None => None
    | Some rr =>
        let s' := drop 6 (backslash :: "u"%byte :: l) in
        if IsSurrogate rr then
          let dec := match getu4 s' with
                     | Some rr1 => utf16_DecodeRune rr rr1
                     | None => RuneError
                     end in
          if negb (dec =? RuneError)%N
          then app (EncodeRune dec) <$> unquote_loop fuel (drop 6 s')
          else app (EncodeRune RuneError) <$> unquote_loop fuel s'
        else app (EncodeRune rr) <$> unquote_loop fuel s'
    end.
Proof. reflexivity. Qed.

(** A high byte inside a string literal: the scanner and [rescan_string]
    both pass over it. *)
Lemma advance_high (s : scanner) (b : byte) (rest l : list byte) :
  in_string s -> scan_from s rest = None -> rescan_string rest = b :: l -> high b ->
  exists rest' s',
    rest = b :: rest' /\ rescan_string rest' = l /\ in_string s' /\ scan_from s' rest' = None.
Proof.
  intros Hs Hscan Hres Hb. destruct (high_inv b Hb) as (Hq & Hbs & _).
  destruct (rescan_string_cons rest b l Hres Hbs Hq) as (rest' & -> & Hres').
  destruct (in_string_step s b rest' Hs Hscan)
    as [?|[(? & _)|(_ & _ & _ & s' & Hs' & Hscan')]]; try contradiction.
  now exists rest', s'.
Qed.

(** The text of a string literal the scanner accepts can be unquoted. *)
Lemma string_body (n : nat) : forall rest s,
  length rest <= n -> in_string s -> scan_from s rest = None ->
  exists body t,
    rescan_string rest = body ++ [dquote]
    /\ forall fuel, length body <= fuel -> unquote_loop fuel body = Some t.
Proof.
  assert (Hnil : forall s, in_string s -> scan_from s [] <> None).
  { intros [st et ps er nb] [Hs Het]. cbn in Hs, Het. subst.
    cbn [scan_from]. unfold eof. cbn. now destruct er. }
  induction n as [|n IH]; intros rest s Hn Hs Hscan.
  { destruct rest; [now apply Hnil in Hscan|cbn in Hn; lia]. }
  destruct rest as [|c rest]; [now apply Hnil in Hscan|]. cbn [length] in Hn.
  destruct (in_string_step s c rest Hs Hscan)
    as [->|[(-> & e & rest' & -> & Hesc)|(Hq & Hb & Hctl & s' & Hs' & Hscan')]].
  - (* the closing quote *)
    exists [], []. split; [reflexivity|]. intros fuel _. now destruct fuel.
  - destruct Hesc as [(He & s' & Hs' & Hscan')
                     |(-> & h1 & h2 & h3 & h4 & rest4 & s' & -> & Hh1 & Hh2 & Hh3 & Hh4
                       & Hs' & Hscan')].
    + (* an escape of one character *)
      cbn [length] in Hn.
      destruct (IH rest' s' ltac:(lia) Hs' Hscan') as (body & t & Hres & Hun).
      destruct (simple_escape_inv e He) as [x Hx].
      exists (backslash :: e :: body), (x :: t). split.
      * now rewrite rescan_string_skip, Hres.
      * intros [|fuel] Hfuel; cbn [length] in Hfuel; [lia|].
        rewrite Hx, Hun by lia. reflexivity.
    + (* an escape \uXXXX *)
      cbn [length] in Hn.
      destruct (IH rest4 s' ltac:(lia) Hs' Hscan') as (body4 & t4 & Hres4 & Hun4).
      destruct (isHex_inv h1 Hh1) as (Hq1 & Hb1 & _).
      destruct (isHex_inv h2 Hh2) as (Hq2 & Hb2 & _).
      destruct (isHex_inv h3 Hh3) as (Hq3 & Hb3 & _).
      destruct (isHex_inv h4 Hh4) as (Hq4 & Hb4 & _).
      assert (Hres : rescan_string (backslash :: "u"%byte :: h1 :: h2 :: h3 :: h4 :: rest4)
                     = (backslash :: "u"%byte :: h1 :: h2 :: h3 :: h4 :: body4) ++ [dquote]).
      { rewrite rescan_string_skip, !rescan_string_pass by assumption.
        now rewrite Hres4. }
      destruct (getu4_hex h1 h2 h3 h4 body4 Hh1 Hh2 Hh3 Hh4) as [rr Hrr].
      exists (backslash :: "u"%byte :: h1 :: h2 :: h3 :: h4 :: body4).
      destruct (IsSurrogate rr) eqn:Hsur.
      2:{ exists (EncodeRune rr ++ t4). split; [exact Hres|].
          intros [|fuel] Hfuel; cbn [length] in Hfuel; [lia|].
          rewrite unquote_u, Hrr. cbv zeta. cbn [drop]. rewrite drop_0, Hsur, Hun4 by lia.
          reflexivity. }
      assert (Hrepl : forall fuel,
                 getu4 body4 = None
                 \/ (exists rr1, getu4 body4 = Some rr1
                                 /\ (utf16_DecodeRune rr rr1 =? RuneError)%N = true) ->
                 6 + length body4 <= fuel ->
                 unquote_loop fuel (backslash :: "u"%byte :: h1 :: h2 :: h3 :: h4 :: body4)
                 = Some (EncodeRune RuneError ++ t4)).
      { intros [|fuel] Hcase Hfuel; [lia|].
        rewrite unquote_u, Hrr. cbv zeta. cbn [drop]. rewrite !drop_0, Hsur.
        destruct Hcase as [->|(rr1 & -> & ->)]; cbn [negb N.eqb]; rewrite Hun4 by lia;
          reflexivity. }
      destruct (getu4 body4) as [rr1|] eqn:Hrr1.
      2:{ exists (EncodeRune RuneError ++ t4). split; [exact Hres|].
          intros fuel Hfuel. cbn [length] in Hfuel. apply Hrepl; [now left|lia]. }
      destruct (utf16_DecodeRune rr rr1 =? RuneError)%N eqn:Hdec.
      { exists (EncodeRune RuneError ++ t4). split; [exact Hres|].
        intros fuel Hfuel. cbn [length] in Hfuel. apply Hrepl; [right; eauto|lia]. }
      clear Hrepl.
      (* a surrogate pair: the second escape is read here as well *)
      destruct (getu4_inv body4 rr1 Hrr1) as (k1 & k2 & k3 & k4 & l' & -> & Hk1 & Hk2 & Hk3 & Hk4).
      destruct (isHex_inv k1 Hk1) as (Hkq1 & Hkb1 & _).
      destruct (isHex_inv k2 Hk2) as (Hkq2 & Hkb2 & _).
      destruct (isHex_inv k3 Hk3) as (Hkq3 & Hkb3 & _).
      destruct (isHex_inv k4 Hk4) as (Hkq4 & Hkb4 & _).
      cbn [app] in Hres4.
      destruct (rescan_string_esc _ _ _ Hres4) as (r1 & -> & Hr1).
      destruct (rescan_string_cons _ _ _ Hr1 Hkb1 Hkq1) as (r2 & -> & Hr2).
      destruct (rescan_string_cons _ _ _ Hr2 Hkb2 Hkq2) as (r3 & -> & Hr3).
      destruct (rescan_string_cons _ _ _ Hr3 Hkb3 Hkq3) as (r4 & -> & Hr4).
      destruct (rescan_string_cons _ _ _ Hr4 Hkb4 Hkq4) as (rest5 & -> & Hr5).
      destruct (in_string_step s' _ _ Hs' Hscan')
        as [Hc|[(_ & e & r & [= <- <-] & Hesc)|(_ & Hc & _)]];
        [discriminate Hc| |contradiction].
      destruct Hesc as [(He & _)|(_ & ? & ? & ? & ? & ? & s5 & [= <- <- <- <- <-] & _ & _ & _ & _
                           & Hs5 & Hscan5)]; [discriminate He|].
      cbn [length] in Hn.
      destruct (IH rest5 s5 ltac:(lia) Hs5 Hscan5) as (body5 & t5 & Hres5 & Hun5).
      rewrite Hres5 in Hr5. apply app_inv_tail in Hr5. subst body5.
      exists (EncodeRune (utf16_DecodeRune rr rr1) ++ t5). split; [exact Hres|].
      intros [|fuel] Hfuel; cbn [length] in Hfuel; [lia|].
      rewrite unquote_u, Hrr. cbv zeta. cbn [drop]. rewrite !drop_0, Hsur, Hrr1, Hdec.
      cbn [negb]. rewrite Hun5 by lia. reflexivity.
  - (* a byte of the text *)
    destruct (IH rest s' ltac:(lia) Hs' Hscan') as (body & t & Hres & Hun).
    destruct (Byte.to_N c <? 128)%N eqn:Hascii.
    { exists (c :: body), (c :: t). split.
      - now rewrite rescan_string_pass, Hres.
      - intros [|fuel] Hfuel; cbn [length] in Hfuel; [lia|].
        rewrite unquote_ascii, Hun by (assumption || lia). reflexivity. }
    assert (Hc : high c) by (unfold high; apply N.leb_le; apply N.ltb_ge in Hascii; lia).
    exists (c :: body).
    assert (Hres0 : rescan_string (c :: rest) = (c :: body) ++ [dquote])
      by now rewrite rescan_string_pass, Hres.
    destruct (DecodeRune (c :: body)) as [rr size] eqn:Hdec.
    destruct (DecodeRune_width c body rr size Hc Hdec)
      as [->|[(-> & b1 & p & -> & H1)
             |[(-> & b1 & b2 & p & -> & H1 & H2)
              |(-> & b1 & b2 & b3 & p & -> & H1 & H2 & H3)]]].
    + exists (EncodeRune rr ++ t). split; [exact Hres0|].
      intros [|fuel] Hfuel; cbn [length] in Hfuel; [lia|].
      rewrite unquote_high, Hdec by assumption. cbn [fst snd drop].
      rewrite Hun by lia. reflexivity.
    + destruct (advance_high s' b1 rest _ Hs' Hscan' Hres H1) as (r1 & s1 & -> & Hr1 & Hs1 & Hsc1).
      cbn [length] in Hn.
      destruct (IH r1 s1 ltac:(lia) Hs1 Hsc1) as (body1 & t1 & Hres1 & Hun1).
      rewrite Hres1 in Hr1. apply app_inv_tail in Hr1. subst body1.
      exists (EncodeRune rr ++ t1). split; [exact Hres0|].
      intros [|fuel] Hfuel; cbn [length] in Hfuel; [lia|].
      rewrite unquote_high, Hdec by assumption. cbn [fst snd drop].
      rewrite Hun1 by lia. reflexivity.
    + destruct (advance_high s' b1 rest _ Hs' Hscan' Hres H1) as (r1 & s1 & -> & Hr1 & Hs1 & Hsc1).
      destruct (advance_high s1 b2 r1 _ Hs1 Hsc1 Hr1 H2) as (r2 & s2 & -> & Hr2 & Hs2 & Hsc2).
      cbn [length] in Hn.
      destruct (IH r2 s2 ltac:(lia) Hs2 Hsc2) as (body2 & t2 & Hres2 & Hun2).
      rewrite Hres2 in Hr2. apply app_inv_tail in Hr2. subst body2.
      exists (EncodeRune rr ++ t2). split; [exact Hres0|].
      intros [|fuel] Hfuel; cbn [length] in Hfuel; [lia|].
      rewrite unquote_high, Hdec by assumption. cbn [fst snd drop].
      rewrite Hun2 by lia. reflexivity.
    + destruct (advance_high s' b1 rest _ Hs' Hscan' Hres H1) as (r1 & s1 & -> & Hr1 & Hs1 & Hsc1).
      destruct (advance_high s1 b2 r1 _ Hs1 Hsc1 Hr1 H2) as (r2 & s2 & -> & Hr2 & Hs2 & Hsc2).
      destruct (advance_high s2 b3 r2 _ Hs2 Hsc2 Hr2 H3) as (r3 & s3 & -> & Hr3 & Hs3 & Hsc3).
      cbn [length] in Hn.
      destruct (IH r3 s3 ltac:(lia) Hs3 Hsc3) as (body3 & t3 & Hres3 & Hun3).
      rewrite Hres3 in Hr3. apply app_inv_tail in Hr3. subst body3.
      exists (EncodeRune rr ++ t3). split; [exact Hres0|].
      intros [|fuel] Hfuel; cbn [length] in Hfuel; [lia|].
      rewrite unquote_high, Hdec by assumption. cbn [fst snd drop].
      rewrite Hun3 by lia. reflexivity.
Qed.

(** The literal the decoder stores starts with the byte it was found at. *)
Lemma rescanLiteral_head (c : byte) (rest : list byte) :
  exists item, rescanLiteral c rest = c :: item.
Proof.
  unfold rescanLiteral.
  repeat match goal with
         | |- context [if ?b then _ else _] => destruct b
         end; eauto.
Qed.

(** A top-level string that the scanner accepts is decoded. *)
Lemma Unmarshal_string (data : list byte) :
  top_level data = Some JString -> exists t, forall s, Unmarshal data s = (t, None).
Proof.
  unfold top_level, Unmarshal.
  destruct (checkValid data) as [e|] eqn:Hv; [discriminate|].
  unfold checkValid in Hv.
  destruct (scan_from_skipSpace data reset eq_refl) as (s0 & Hscan & Hs0 & _ & Het & _).
  rewrite Hscan in Hv. clear Hscan.
  destruct (skipSpace data) as [|c rest]; [discriminate|].
  cbn [head mbind option_bind]. intros Hk.
  assert (c = dquote) as -> by (destruct c; cbv in Hk; try discriminate Hk; reflexivity).
  clear Hk. cbn [scan_from] in Hv. unfold do_step in Hv. cbn [count_byte step] in Hv.
  rewrite Hs0 in Hv.
  change (do_stateBeginValue (count_byte s0) dquote)
    with (goto (count_byte s0) stateInString, scanBeginLiteral) in Hv.
  destruct (string_body (length rest) rest (goto (count_byte s0) stateInString)
              (Nat.le_refl _) (conj eq_refl Het) Hv) as (body & t & Hres & Hun).
  exists (string_of_bytes t). intros s.
  change (bool_decide (dquote = "["%byte)) with false.
  change (bool_decide (dquote = "{"%byte)) with false. cbv iota.
  unfold rescanLiteral. rewrite bool_decide_eq_true_2 by reflexivity.
  rewrite Hres. unfold literalStore.
  change (bool_decide (dquote = "n"%byte)) with false.
  change (bool_decide (dquote = "t"%byte)) with false.
  change (bool_decide (dquote = "f"%byte)) with false. cbn [orb].
  rewrite bool_decide_eq_true_2 by reflexivity.
  now rewrite unquoteBytes_between, Hun.
Qed.

(** What [Unmarshal] does with an input the scanner accepts, by the
    kind of its top-level value. *)
Lemma Unmarshal_by_kind (data : list byte) (k : json_kind) (s : string) :
  top_level data = Some k ->
  match k with
  | JNull => Unmarshal data s = (s, None)
  | JBool => Unmarshal data s = (s, Some (UnmarshalTypeError "bool"))
  | JNumber => Unmarshal data s = (s, Some (UnmarshalTypeError "number"))
  | JArray => Unmarshal data s = (s, Some (UnmarshalTypeError "array"))
  | JObject => Unmarshal data s = (s, Some (UnmarshalTypeError "object"))
  | JString => exists t, Unmarshal data s = (t, None)
  end.
Proof.
  intros Hk.
  destruct (decide (k = JString)) as [->|Hns].
  { destruct (Unmarshal_string data Hk) as [t Ht]. now exists t. }
  revert Hk. unfold top_level, Unmarshal.
  destruct (checkValid data) as [e|]; [discriminate|].
  destruct (skipSpace data) as [|c rest]; [discriminate|].
  cbn [head mbind option_bind].
  destruct (rescanLiteral_head c rest) as [item ->].
  intros Hk.
  destruct c; cbv in Hk; try discriminate Hk; injection Hk as <-;
    try reflexivity.
  contradiction.
Qed.

Lemma plain_hex (b : byte) :
  plain (google_uuid.hex_hi b) = true /\ plain (google_uuid.hex_lo b) = true.
Proof. destruct b; split; reflexivity. Qed.

(** The canonical text of an identifier is made of plain bytes. *)
Lemma plain_String (g : list byte) :
  length g = 16 -> Forall (fun c => plain c = true) (bytes (google_uuid.String g)).
Proof.
  intros Hlen. unfold google_uuid.String. rewrite bytes_string_of_bytes.
  destruct (google_uuid_facts.length_16_inv g Hlen)
    as (? & ? & ? & ? & ? & ? & ? & ? & ? & ? & ? & ? & ? & ? & ? & ? & ->).
  rewrite google_uuid_facts.encodeHex_16.
  repeat (apply Forall_cons; split; [first [apply plain_hex|reflexivity]|]).
  apply Forall_nil_2.
Qed.

End json_facts.

(** ** The package *)

(** Unfolding of the store monad. *)
Ltac run_M :=
  unfold mbind, mret, M_bind, M_ret, GetVal, get_Value, new_UUID, wrapperspb_String in *.

Lemma IsZero_zero : uuid.IsZero uuid.zero = true.
Proof. reflexivity. Qed.

Lemma IsZero_false (g : list byte) :
  g <> google_uuid.Nil -> uuid.IsZero {| uuid.UUID := g |} = false.
Proof. intros Hg. unfold uuid.IsZero. now apply bool_decide_eq_false_2. Qed.

(** The three ways [Parse] fails and the one way it succeeds. *)
Lemma Parse_cases (s : string) :
  (s = "" /\ uuid.Parse s = (uuid.zero, Some EmptyInput))
  \/ (s <> "" /\ exists cause, snd (google_uuid.Parse s) = Some cause
                 /\ uuid.Parse s = (uuid.zero, Some (MalformedText cause)))
  \/ (s <> "" /\ google_uuid.Parse s = (google_uuid.Nil, None)
             /\ uuid.Parse s = (uuid.zero, Some ZeroValue))
  \/ (s <> "" /\ exists g, google_uuid.Parse s = (g, None) /\ g <> google_uuid.Nil
                 /\ uuid.Parse s = ({| uuid.UUID := g |}, None)).
Proof.
  unfold uuid.Parse. case_bool_decide as Hs; [left; now split|].
  right. destruct (google_uuid.Parse s) as [g [cause|]].
  - left. split; [assumption|]. now exists cause.
  - right. case_bool_decide as Hg.
    + left. now subst g.
    + right. split; [assumption|]. now exists g.
Qed.

Lemma Parse_ok (s : string) (v : uuid.ValidatedUUID) :
  uuid.Parse s = (v, None) ->
  s <> "" /\ google_uuid.Parse s = (uuid.UUID v, None) /\ uuid.UUID v <> google_uuid.Nil.
Proof.
  intros H.
  destruct (Parse_cases s) as [[_ H']|[(_ & c & _ & H')|[(_ & _ & H')|(Hs & g & Hg & Hnz & H')]]];
    rewrite H' in H; try discriminate H.
  injection H as <-. auto.
Qed.

Lemma Parse_nonzero (s : string) (v : uuid.ValidatedUUID) :
  uuid.Parse s = (v, None) -> uuid.IsZero v = false.
Proof.
  intros (_ & _ & Hnz)%Parse_ok. destruct v as [g]. now apply IsZero_false.
Qed.

Lemma Parse_wf (s : string) (v : uuid.ValidatedUUID) : uuid.Parse s = (v, None) -> wf v.
Proof.
  intros (_ & Hg & _)%Parse_ok. unfold wf.
  change (uuid.UUID v) with (fst (uuid.UUID v, @None error)).
  rewrite <- Hg. apply google_uuid_facts.Parse_length.
Qed.

Lemma Parse_error (s : string) (v : uuid.ValidatedUUID) (e : error) :
  uuid.Parse s = (v, Some e) -> v = uuid.zero.
Proof.
  intros H.
  destruct (Parse_cases s) as [[_ H']|[(_ & c & _ & H')|[(_ & _ & H')|(_ & g & _ & _ & H')]]];
    rewrite H' in H; try discriminate H; now injection H.
Qed.

(** Parsing the text of a valid identifier gives the identifier. *)
Lemma Parse_String (v : uuid.ValidatedUUID) :
  wf v -> uuid.IsZero v = false -> uuid.Parse (uuid.String v) = (v, None).
Proof.
  intros Hwf Hnz. destruct v as [g]. unfold wf in Hwf. cbn in Hwf.
  apply bool_decide_eq_false in Hnz. cbn in Hnz.
  unfold uuid.Parse, uuid.String. cbn [uuid.UUID].
  rewrite bool_decide_eq_false_2.
  - rewrite (google_uuid_facts.Parse_of_String g Hwf).
    now rewrite bool_decide_eq_false_2.
  - intros Hempty. apply (f_equal String.length) in Hempty.
    now rewrite (google_uuid_facts.length_String g Hwf) in Hempty.
Qed.

Lemma New_nonzero r r' (v : uuid.ValidatedUUID) :
  uuid.New r = (Return v, r') -> wf v /\ uuid.IsZero v = false.
Proof.
  unfold uuid.New, google_uuid.New.
  destruct (google_uuid.NewRandomFromReader r) as [[g err] r''] eqn:Hnew.
  destruct err as [err|]; cbn; [discriminate|].
  intros [= <- _]. apply google_uuid_facts.NewRandomFromReader_ok in Hnew as [Hlen Hnz].
  split; [exact Hlen|now apply IsZero_false].
Qed.

(** [New] returns, and returns a valid value, whenever the random source
    delivers sixteen bytes. *)
Lemma New_returns (r : list byte) :
  16 <= length r ->
  exists v, uuid.New r = (Return v, drop 16 r) /\ wf v /\ uuid.IsZero v = false.
Proof.
  intros Hr. destruct (google_uuid_facts.raw_New_returns r Hr) as [g Hg].
  exists {| uuid.UUID := g |}.
  assert (H : uuid.New r = (Return {| uuid.UUID := g |}, drop 16 r))
    by (unfold uuid.New; now rewrite Hg).
  split; [exact H|]. now apply New_nonzero in H.
Qed.

(** *** C1 *)

(** C1.  Non-zero invariant: every value a public constructor returns
    with success ([New], [Parse], [MustParse], [FromGoogleUUID],
    [FromProto], [FromStringValue] and the panicking variants), and
    every value [UnmarshalJSON] or [Scan] writes in place with success,
    has [IsZero() == false]; in particular what [New] returns does. *)
Theorem nonzero_invariant (v : uuid.ValidatedUUID) :
  produced v -> uuid.IsZero v = false.
Proof.
  intros Hv. destruct Hv as
    [r r' v H | s v H | s v H | g v H | g v H | pb σ σ' v H | pb σ σ' v H
    | sv σ σ' v H | u data v H | u value v H].
  - now apply New_nonzero in H.
  - now apply Parse_nonzero in H.
  - unfold uuid.MustParse in H.
    destruct (uuid.Parse s) as [v' [e|]] eqn:HP; [discriminate|].
    injection H as <-. now apply Parse_nonzero in HP.
  - unfold uuid.FromGoogleUUID in H. case_bool_decide; [discriminate|].
    injection H as <-. now apply IsZero_false.
  - unfold uuid.MustFromGoogleUUID, uuid.FromGoogleUUID in H.
    case_bool_decide; [discriminate|]. injection H as <-. now apply IsZero_false.
  - unfold uuid.FromProto in H. case_bool_decide; run_M; [discriminate|].
    injection H as H _. now apply Parse_nonzero in H.
  - unfold uuid.MustFromProto, uuid.FromProto in H. case_bool_decide; run_M; [discriminate|].
    destruct (uuid.Parse _) as [v' [e|]] eqn:HP; [discriminate|].
    injection H as <- _. now apply Parse_nonzero in HP.
  - unfold uuid.FromStringValue in H. case_bool_decide; run_M; [discriminate|].
    injection H as H _. now apply Parse_nonzero in H.
  - unfold uuid.UnmarshalJSON in H.
    destruct (json.Unmarshal data "") as [s [e|]]; [discriminate|].
    destruct (uuid.Parse s) as [v' [e|]] eqn:HP; [discriminate|].
    injection H as <-. now apply Parse_nonzero in HP.
  - unfold uuid.Scan, uuid.Scan_string in H.
    destruct value as [|s|b|z|f|b|t]; try discriminate H.
    + destruct (uuid.Parse s) as [v' [e|]] eqn:HP; [discriminate|].
      injection H as <-. now apply Parse_nonzero in HP.
    + destruct (uuid.Parse _) as [v' [e|]] eqn:HP; [discriminate|].
      injection H as <-. now apply Parse_nonzero in HP.
Qed.

Lemma nonzero_invariant_witness :
  produced example_uuid /\ uuid.IsZero example_uuid = false.
Proof.
  assert (H : produced example_uuid).
  { apply (by_Parse example_text). vm_compute. reflexivity. }
  split; [exact H | exact (nonzero_invariant example_uuid H)].
Defined.

(** *** C2 *)

(** C2.  Rejection by [Parse]: the empty text fails with [EmptyInput],
    tested before the primitive parser is tried (which would reject the
    empty text itself); a text the primitive parser rejects, as
    ["not-a-uuid"], fails with [MalformedText] around the parser's
    error; a text that parses to the zero value, as the zero text, fails
    with [ZeroValue]; the three errors differ and [Parse] has no other
    failure. *)
Theorem Parse_rejection :
  uuid.Parse "" = (uuid.zero, Some EmptyInput)
  /\ snd (google_uuid.Parse "") = Some (invalidLengthError 0)
  /\ uuid.Parse "not-a-uuid" = (uuid.zero, Some (MalformedText (invalidLengthError 10)))
  /\ uuid.Parse zero_text = (uuid.zero, Some ZeroValue)
  /\ (forall s cause,
        s <> "" -> snd (google_uuid.Parse s) = Some cause ->
        uuid.Parse s = (uuid.zero, Some (MalformedText cause)))
  /\ (forall s,
        s <> "" -> google_uuid.Parse s = (google_uuid.Nil, None) ->
        uuid.Parse s = (uuid.zero, Some ZeroValue))
  /\ (forall s e,
        snd (uuid.Parse s) = Some e ->
        (s = "" /\ e = EmptyInput)
        \/ (s <> "" /\ exists cause,
               snd (google_uuid.Parse s) = Some cause /\ e = MalformedText cause)
        \/ (s <> "" /\ google_uuid.Parse s = (google_uuid.Nil, None) /\ e = ZeroValue))
  /\ (forall cause, EmptyInput <> MalformedText cause
                    /\ ZeroValue <> MalformedText cause)
  /\ EmptyInput <> ZeroValue.
Proof.
  repeat split; try reflexivity; try discriminate.
  - intros s cause Hs Hc.
    destruct (Parse_cases s) as [[? _]|[(_ & c & Hc' & H')|[(_ & Hg & _)|(_ & g & Hg & _)]]];
      [contradiction| |rewrite Hg in Hc; discriminate Hc..].
    rewrite Hc in Hc'. now injection Hc' as <-.
  - intros s Hs Hg.
    destruct (Parse_cases s) as [[? _]|[(_ & c & Hc & _)|[(_ & _ & H')|(_ & g & Hg' & Hnz & _)]]];
      [contradiction|rewrite Hg in Hc; discriminate Hc|exact H'|].
    rewrite Hg in Hg'. injection Hg' as <-. contradiction.
  - intros s e He.
    destruct (Parse_cases s) as [[Hs H']|[(Hs & c & Hc & H')|[(Hs & Hg & H')|(_ & g & _ & _ & H')]]];
      rewrite H' in He; cbn in He; try discriminate He; injection He as <-.
    + left. now split.
    + right. left. split; [assumption|]. now exists c.
    + right. right. now repeat split.
Qed.

Lemma Parse_rejection_witness :
  snd (uuid.Parse "not-a-uuid") = Some (MalformedText (invalidLengthError 10))
  /\ (("not-a-uuid" = "" /\ MalformedText (invalidLengthError 10) = EmptyInput)
      \/ ("not-a-uuid" <> "" /\ exists cause,
             snd (google_uuid.Parse "not-a-uuid") = Some cause
             /\ MalformedText (invalidLengthError 10) = MalformedText cause)
      \/ ("not-a-uuid" <> "" /\ google_uuid.Parse "not-a-uuid" = (google_uuid.Nil, None)
          /\ MalformedText (invalidLengthError 10) = ZeroValue)).
Proof.
  assert (H : snd (uuid.Parse "not-a-uuid") = Some (MalformedText (invalidLengthError 10)))
    by reflexivity.
  split; [exact H|].
  destruct Parse_rejection as (_ & _ & _ & _ & _ & _ & Honly & _).
  exact (Honly "not-a-uuid" _ H).
Defined.

(** *** C3 *)

(** C3.  Text round trip: for every canonical UUID text [t] (36 bytes,
    hyphenated, lower case) other than the zero text, [Parse(t)]
    succeeds and the [String()] of its result is [t]. *)
Theorem text_round_trip (t : string) :
  canonical t = true -> t <> zero_text ->
  exists v, uuid.Parse t = (v, None) /\ uuid.String v = t.
Proof.
  intros Hc Hnz. destruct (google_uuid_facts.canonical_String t Hc) as (g & Hlen & ->).
  exists {| uuid.UUID := g |}. split; [|reflexivity].
  apply (Parse_String {| uuid.UUID := g |} Hlen). apply IsZero_false.
  intros ->. now apply Hnz.
Qed.

Lemma text_round_trip_witness :
  canonical example_text = true /\ example_text <> zero_text
  /\ exists v, uuid.Parse example_text = (v, None) /\ uuid.String v = example_text.
Proof.
  assert (Hc : canonical example_text = true) by (vm_compute; reflexivity).
  assert (Hnz : example_text <> zero_text) by discriminate.
  split; [exact Hc|]. split; [exact Hnz|]. exact (text_round_trip example_text Hc Hnz).
Defined.

(** Outside the canonical form the text is not given back: [Parse]
    accepts upper-case digits, [String] writes lower-case ones. *)
Example upper_case_not_round_trip :
  canonical "550E8400-E29B-41D4-A716-446655440000" = false
  /\ uuid.Parse "550E8400-E29B-41D4-A716-446655440000" = (example_uuid, None)
  /\ uuid.String example_uuid = example_text.
Proof. repeat split. Qed.

(** *** C4 *)

Lemma Validate_IsZero (u : uuid.ValidatedUUID) :
  uuid.Validate u = if uuid.IsZero u then Some ZeroValue else None.
Proof. unfold uuid.Validate, uuid.IsZero. now case_bool_decide. Qed.

(** [ToProto] step by step. *)
Lemma ToProto_cases (u : uuid.ValidatedUUID) (σ : Store) :
  uuid.ToProto u σ
  = if uuid.IsZero u
    then ((nil, Some (wrapError "UUID validation failed during protobuf marshalling: "
                        ZeroValue)), σ)
    else ((addr (fresh (dom (uuids σ))), None),
          {| uuids := <[fresh (dom (uuids σ)) := pb.mkUUID (uuid.String u)]> (uuids σ);
             stringValues := stringValues σ |}).
Proof.
  unfold uuid.ToProto. rewrite Validate_IsZero. now destruct (uuid.IsZero u).
Qed.

(** C4.  The validation gate: [Validate] fails, with [ZeroValue], exactly
    when the value is all zero, that is when [IsZero] is true; each of
    [MarshalJSON], [Value], [ToProto] and [ToStringValue] is behind the
    gate: when [Validate] fails it returns nothing, an error that wraps
    the one of [Validate] and, for the two messages, the store as it
    was; when [Validate] succeeds it returns its output, built from the
    canonical text, and no error.  The tests [FromGoogleUUID] and
    [Parse] make on a raw value decide as [Validate] does. *)
Theorem validation_gate (u : uuid.ValidatedUUID) :
  uuid.Validate u = (if uuid.IsZero u then Some ZeroValue else None)
  /\ gated u (uuid.MarshalJSON u) [] (json.appendString (uuid.String u))
  /\ gated u (uuid.Value u) nil_any (string_any (uuid.String u))
  /\ (forall σ,
        gated u (fst (uuid.ToProto u σ)) nil (addr (fresh (dom (uuids σ))))
        /\ (if uuid.IsZero u then snd (uuid.ToProto u σ) = σ
            else snd (uuid.ToProto u σ)
                 = {| uuids := <[fresh (dom (uuids σ)) := pb.mkUUID (uuid.String u)]> (uuids σ);
                      stringValues := stringValues σ |}))
  /\ (forall σ,
        gated u (fst (uuid.ToStringValue u σ)) nil (addr (fresh (dom (stringValues σ))))
        /\ (if uuid.IsZero u then snd (uuid.ToStringValue u σ) = σ
            else snd (uuid.ToStringValue u σ)
                 = {| uuids := uuids σ;
                      stringValues := <[fresh (dom (stringValues σ))
                                        := wrapperspb.mkStringValue (uuid.String u)]>
                                        (stringValues σ) |}))
  /\ snd (uuid.FromGoogleUUID (uuid.UUID u)) = uuid.Validate u
  /\ (forall s, s <> "" -> google_uuid.Parse s = (uuid.UUID u, None) ->
                snd (uuid.Parse s) = uuid.Validate u).
Proof.
  split; [apply Validate_IsZero|].
  assert (HG : snd (uuid.FromGoogleUUID (uuid.UUID u)) = uuid.Validate u).
  { unfold uuid.FromGoogleUUID, uuid.Validate. now case_bool_decide. }
  assert (HP : forall s, s <> "" -> google_uuid.Parse s = (uuid.UUID u, None) ->
                         snd (uuid.Parse s) = uuid.Validate u).
  { intros s Hs Hg. unfold uuid.Parse, uuid.Validate.
    rewrite (bool_decide_eq_false_2 _ Hs), Hg. now case_bool_decide. }
  unfold gated, uuid.MarshalJSON, uuid.Value, uuid.ToProto, uuid.ToStringValue.
  rewrite HG, Validate_IsZero. rewrite Validate_IsZero in HP. clear HG.
  destruct (uuid.IsZero u); run_M; cbn; repeat split; eauto.
Qed.

Lemma validation_gate_witness :
  zero_text <> ""
  /\ google_uuid.Parse zero_text = (uuid.UUID uuid.zero, None)
  /\ snd (uuid.Parse zero_text) = uuid.Validate uuid.zero.
Proof.
  assert (Hs : zero_text <> "") by discriminate.
  assert (Hg : google_uuid.Parse zero_text = (uuid.UUID uuid.zero, None))
    by (vm_compute; reflexivity).
  split; [exact Hs|]. split; [exact Hg|].
  destruct (validation_gate uuid.zero) as (_ & _ & _ & _ & _ & _ & HP).
  exact (HP zero_text Hs Hg).
Defined.

(** Serialization symmetry (section 8, 4): for a valid value,
    [MarshalJSON] writes its text between quotes and [UnmarshalJSON]
    reads the value back, whatever the destination held. *)
Lemma JSON_round_trip (u v : uuid.ValidatedUUID) :
  wf v -> uuid.IsZero v = false ->
  uuid.MarshalJSON v = (quoted (uuid.String v), None)
  /\ uuid.UnmarshalJSON u (quoted (uuid.String v)) = (v, None).
Proof.
  intros Hwf Hnz. pose proof (json_facts.plain_String _ Hwf) as Hplain. split.
  - unfold uuid.MarshalJSON. rewrite Validate_IsZero, Hnz.
    now apply json_facts.Marshal_plain.
  - unfold uuid.UnmarshalJSON. rewrite (json_facts.Unmarshal_quoted _ _ Hplain).
    change (google_uuid.String (uuid.UUID v)) with (uuid.String v).
    now rewrite Parse_String.
Qed.

(** *** C5 *)

(** C5.  In-place decoding is atomic: whenever [UnmarshalJSON] or
    [Scan] returns an error the destination holds the value it held
    before the call, whatever that value and the input are; the
    destination is written only with a value [Parse] has accepted. *)
Theorem decode_atomic (u : uuid.ValidatedUUID) :
  (forall data u' e, uuid.UnmarshalJSON u data = (u', Some e) -> u' = u)
  /\ (forall value u' e, uuid.Scan u value = (u', Some e) -> u' = u)
  /\ (forall data u', uuid.UnmarshalJSON u data = (u', None) ->
        exists s, uuid.Parse s = (u', None))
  /\ (forall value u', uuid.Scan u value = (u', None) ->
        exists s, uuid.Parse s = (u', None)).
Proof.
  repeat split.
  - intros data u' e. unfold uuid.UnmarshalJSON.
    destruct (json.Unmarshal data "") as [s [e'|]]; [now intros [= <- _]|].
    destruct (uuid.Parse s) as [v [e'|]]; [now intros [= <- _]|discriminate].
  - intros value u' e. unfold uuid.Scan, uuid.Scan_string.
    destruct value as [|s|b|z|f|b|t]; try (now intros [= <- _]).
    + destruct (uuid.Parse s) as [v [e'|]]; [now intros [= <- _]|discriminate].
    + destruct (uuid.Parse _) as [v [e'|]]; [now intros [= <- _]|discriminate].
  - intros data u'. unfold uuid.UnmarshalJSON.
    destruct (json.Unmarshal data "") as [s [e'|]]; [discriminate|].
    destruct (uuid.Parse s) as [v [e'|]] eqn:HP; [discriminate|].
    intros [= <-]. now exists s.
  - intros value u'. unfold uuid.Scan, uuid.Scan_string.
    destruct value as [|s|b|z|f|b|t]; try discriminate.
    + destruct (uuid.Parse s) as [v [e'|]] eqn:HP; [discriminate|].
      intros [= <-]. now exists s.
    + destruct (uuid.Parse _) as [v [e'|]] eqn:HP; [discriminate|].
      intros [= <-]. eauto.
Qed.

Lemma decode_atomic_witness :
  uuid.UnmarshalJSON example_uuid (quoted "invalid-uuid")
  = (example_uuid,
     Some (wrapError "UUID validation failed during JSON unmarshalling: "
             (MalformedText (invalidLengthError 12))))
  /\ example_uuid = example_uuid.
Proof.
  assert (H : uuid.UnmarshalJSON example_uuid (quoted "invalid-uuid")
              = (example_uuid,
                 Some (wrapError "UUID validation failed during JSON unmarshalling: "
                         (MalformedText (invalidLengthError 12)))))
    by (vm_compute; reflexivity).
  split; [exact H|].
  destruct (decode_atomic example_uuid) as (HJ & _).
  exact (HJ _ _ _ H).
Defined.

(** *** C6 *)

Lemma FromProto_addr (l : loc) (σ : Store) :
  uuid.FromProto (addr l) σ
  = (uuid.Parse (from_option pb.Val "" (uuids σ !! l)), σ).
Proof. reflexivity. Qed.

(** C6.  Message round trip: for a valid value [v], [ToProto(v)]
    succeeds and [FromProto] of the message it returns succeeds with a
    value whose text is the text of [v] (it is [v]); [FromProto(nil)]
    fails with [NilMessage]; [FromProto] of a message whose field holds
    ["invalid-uuid"] fails with [MalformedText]. *)
Theorem message_round_trip :
  (forall v σ,
      wf v -> uuid.IsZero v = false ->
      exists p σ',
        uuid.ToProto v σ = ((p, None), σ')
        /\ uuid.FromProto p σ' = ((v, None), σ')
        /\ uuid.String (fst (fst (uuid.FromProto p σ'))) = uuid.String v)
  /\ (forall σ,
        uuid.FromProto nil σ = ((uuid.zero, Some (NilMessage "protobuf UUID")), σ))
  /\ (forall l σ,
        uuids σ !! l = Some (pb.mkUUID "invalid-uuid") ->
        uuid.FromProto (addr l) σ
        = ((uuid.zero, Some (MalformedText (invalidLengthError 12))), σ)).
Proof.
  repeat split.
  - intros v σ Hwf Hnz.
    rewrite ToProto_cases, Hnz.
    eexists _, _. split; [reflexivity|].
    rewrite FromProto_addr. cbn [uuids]. rewrite lookup_insert_eq. cbn.
    rewrite (Parse_String v Hwf Hnz). split; reflexivity.
  - intros l σ Hl. rewrite FromProto_addr, Hl. reflexivity.
Qed.

Lemma message_round_trip_witness :
  wf example_uuid /\ uuid.IsZero example_uuid = false
  /\ exists p σ',
       uuid.ToProto example_uuid empty_store = ((p, None), σ')
       /\ uuid.FromProto p σ' = ((example_uuid, None), σ')
       /\ uuid.String (fst (fst (uuid.FromProto p σ'))) = uuid.String example_uuid.
Proof.
  assert (Hwf : wf example_uuid) by reflexivity.
  assert (Hnz : uuid.IsZero example_uuid = false) by reflexivity.
  split; [exact Hwf|]. split; [exact Hnz|].
  destruct message_round_trip as (H & _).
  exact (H example_uuid empty_store Hwf Hnz).
Defined.

(** *** C7 *)

(** C7.  Storage column: [Value] of a valid value is its canonical text;
    [Scan] of a string, or of bytes read as a string, is what [Parse]
    of the text decides, so that scanning the column value of a valid
    [v] (or the bytes of its text) writes [v]; [Scan] of nil fails;
    [Scan] of a value of another type fails with
    [UnsupportedColumnType]. *)
Theorem column_symmetry (u : uuid.ValidatedUUID) :
  (forall v, uuid.IsZero v = false ->
             uuid.Value v = (string_any (uuid.String v), None))
  /\ (forall s,
        uuid.Scan u (string_any s)
        = delegate_to_Parse "UUID validation failed during database scan: " u s)
  /\ (forall b,
        uuid.Scan u (bytes_any b)
        = delegate_to_Parse "UUID validation failed during database scan: " u
            (string_of_bytes b))
  /\ (forall v, wf v -> uuid.IsZero v = false ->
                uuid.Scan u (fst (uuid.Value v)) = (v, None)
                /\ uuid.Scan u (bytes_any (bytes (uuid.String v))) = (v, None))
  /\ uuid.Scan u nil_any = (u, Some (errorString "UUID cannot be nil"))
  /\ (forall value,
        match value with
        | nil_any | string_any _ | bytes_any _ => True
        | _ => uuid.Scan u value = (u, Some (UnsupportedColumnType (type_name value)))
        end).
Proof.
  assert (HV : forall v, uuid.IsZero v = false ->
                         uuid.Value v = (string_any (uuid.String v), None)).
  { intros v Hnz. unfold uuid.Value. now rewrite Validate_IsZero, Hnz. }
  assert (HS : forall s, uuid.Scan u (string_any s)
               = delegate_to_Parse "UUID validation failed during database scan: " u s).
  { intros s. unfold uuid.Scan, uuid.Scan_string, delegate_to_Parse. now destruct (uuid.Parse s) as [v [e|]]. }
  assert (HB : forall b, uuid.Scan u (bytes_any b)
               = delegate_to_Parse "UUID validation failed during database scan: " u
                   (string_of_bytes b)).
  { intros b. unfold uuid.Scan, uuid.Scan_string, delegate_to_Parse.
    now destruct (uuid.Parse _) as [v [e|]]. }
  repeat split; try assumption.
  - rewrite (HV v) by assumption. cbn [fst]. rewrite HS. unfold delegate_to_Parse.
    now rewrite Parse_String.
  - rewrite HB, string_of_bytes_bytes. unfold delegate_to_Parse.
    now rewrite Parse_String.
  - intros value. now destruct value.
Qed.

Lemma column_symmetry_witness :
  wf example_uuid /\ uuid.IsZero example_uuid = false
  /\ uuid.Value example_uuid = (string_any example_text, None)
  /\ uuid.Scan uuid.zero (fst (uuid.Value example_uuid)) = (example_uuid, None).
Proof.
  assert (Hwf : wf example_uuid) by reflexivity.
  assert (Hnz : uuid.IsZero example_uuid = false) by reflexivity.
  destruct (column_symmetry uuid.zero) as (HV & _ & _ & HS & _).
  split; [exact Hwf|]. split; [exact Hnz|].
  split; [exact (HV example_uuid Hnz)|exact (proj1 (HS example_uuid Hwf Hnz))].
Defined.

(** *** C8 *)

(** C8, as the code has it.  [UnmarshalJSON] returns an error of the
    notation layer as it is, the destination untouched and [Parse] not
    called, and otherwise does what [Parse] of the decoded string
    decides.  An input is rejected by the scanner (it is not one JSON
    value) or has a top-level value of one of six kinds.  A top-level
    string is decoded and handed to [Parse].  The notation layer fails
    for every input the scanner rejects and for every top-level
    boolean, number, array and object.  It does not fail for the scalar
    [null]: there [json.Unmarshal] leaves the string empty and reports
    no error, so that [Parse("")] is called and the decoding fails with
    [EmptyInput] wrapped by [UnmarshalJSON]. *)
Theorem notation_layer_gating (u : uuid.ValidatedUUID) (data : list byte) :
  (forall e, snd (json.Unmarshal data "") = Some e ->
             uuid.UnmarshalJSON u data = (u, Some e))
  /\ (forall s, json.Unmarshal data "" = (s, None) ->
                uuid.UnmarshalJSON u data
                = delegate_to_Parse "UUID validation failed during JSON unmarshalling: " u s)
  /\ (json.checkValid data = None -> is_Some (top_level data))
  /\ (top_level data = Some JString ->
      exists s, json.Unmarshal data "" = (s, None))
  /\ (forall e, json.checkValid data = Some e ->
                json.Unmarshal data "" = ("", Some e) /\ fails_in_notation_layer data)
  /\ (forall k, top_level data = Some k -> k <> JString -> k <> JNull ->
                fails_in_notation_layer data)
  /\ (top_level data = Some JNull ->
      json.Unmarshal data "" = ("", None)
      /\ uuid.UnmarshalJSON u data
         = (u, Some (wrapError "UUID validation failed during JSON unmarshalling: "
                       EmptyInput))).
Proof.
  assert (Hnull : top_level data = Some JNull -> json.Unmarshal data "" = ("", None)).
  { intros Hk. exact (json_facts.Unmarshal_by_kind data JNull "" Hk). }
  split; [|split; [|split; [|split; [|split; [|split]]]]].
  - intros e He. unfold uuid.UnmarshalJSON.
    destruct (json.Unmarshal data "") as [s [e'|]]; cbn in He; [|discriminate].
    now injection He as ->.
  - intros s Hs. unfold uuid.UnmarshalJSON, delegate_to_Parse. rewrite Hs.
    now destruct (uuid.Parse s) as [v [e|]].
  - apply json_facts.valid_has_kind.
  - intros Hk. exact (json_facts.Unmarshal_by_kind data JString "" Hk).
  - intros e He. unfold fails_in_notation_layer, json.Unmarshal. rewrite He.
    split; [reflexivity|]. cbn. eauto.
  - intros k Hk Hs Hn. unfold fails_in_notation_layer.
    pose proof (json_facts.Unmarshal_by_kind data k "" Hk) as H.
    destruct k; try contradiction; rewrite H; cbn; eauto.
  - intros Hk. split; [now apply Hnull|].
    unfold uuid.UnmarshalJSON. now rewrite (Hnull Hk).
Qed.

Lemma notation_layer_gating_witness :
  top_level (bytes "12") = Some JNumber
  /\ fails_in_notation_layer (bytes "12")
  /\ top_level (bytes "null") = Some JNull
  /\ uuid.UnmarshalJSON example_uuid (bytes "null")
     = (example_uuid,
        Some (wrapError "UUID validation failed during JSON unmarshalling: " EmptyInput)).
Proof.
  assert (H12 : top_level (bytes "12") = Some JNumber) by (vm_compute; reflexivity).
  assert (Hnull : top_level (bytes "null") = Some JNull) by (vm_compute; reflexivity).
  destruct (notation_layer_gating example_uuid (bytes "12"))
    as (_ & _ & _ & _ & _ & Hfail & _).
  destruct (notation_layer_gating example_uuid (bytes "null"))
    as (_ & _ & _ & _ & _ & _ & HN).
  split; [exact H12|]. split; [apply (Hfail JNumber H12); discriminate|].
  split; [exact Hnull|]. exact (proj2 (HN Hnull)).
Defined.

(** C8, as the specification has it: every input that is not one JSON
    value, and every scalar other than a string, fails in the notation
    layer.  The input [null] is a scalar, is not a string, and does not
    fail there: [json.Unmarshal] accepts it and [Parse] is called with
    the empty string, whose error [UnmarshalJSON] returns. *)
Lemma null_reaches_Parse :
  top_level (bytes "null") = Some JNull
  /\ scalar JNull = true
  /\ JNull <> JString
  /\ json.Unmarshal (bytes "null") "" = ("", None)
  /\ ~ fails_in_notation_layer (bytes "null")
  /\ uuid.UnmarshalJSON uuid.zero (bytes "null")
     = (uuid.zero,
        Some (wrapError "UUID validation failed during JSON unmarshalling: " EmptyInput)).
Proof.
  assert (HU : json.Unmarshal (bytes "null") "" = ("", None)) by (vm_compute; reflexivity).
  split; [vm_compute; reflexivity|]. split; [reflexivity|]. split; [discriminate|].
  split; [exact HU|]. split.
  - unfold fails_in_notation_layer. rewrite HU. cbn. intros [e He]. discriminate He.
  - vm_compute. reflexivity.
Qed.

(** *** C9 *)

Lemma new_UUID_extends (val : string) (σ : Store) : extends σ (snd (new_UUID val σ)).
Proof.
  split; cbn; [|reflexivity].
  apply insert_subseteq, not_elem_of_dom, is_fresh.
Qed.

Lemma wrapperspb_String_extends (v : string) (σ : Store) :
  extends σ (snd (wrapperspb_String v σ)).
Proof.
  split; cbn; [reflexivity|].
  apply insert_subseteq, not_elem_of_dom, is_fresh.
Qed.

Lemma extends_refl (σ : Store) : extends σ σ.
Proof. split; reflexivity. Qed.

(** [ToProto] and [ToStringValue] leave the messages that exist as they are. *)
Lemma ToProto_extends (u : uuid.ValidatedUUID) (σ : Store) :
  extends σ (snd (uuid.ToProto u σ)).
Proof.
  unfold uuid.ToProto. destruct (uuid.Validate u); [apply extends_refl|].
  apply (new_UUID_extends (uuid.String u) σ).
Qed.

Lemma ToStringValue_extends (u : uuid.ValidatedUUID) (σ : Store) :
  extends σ (snd (uuid.ToStringValue u σ)).
Proof.
  unfold uuid.ToStringValue. destruct (uuid.Validate u); [apply extends_refl|].
  apply (wrapperspb_String_extends (uuid.String u) σ).
Qed.

(** [FromProto] and [FromStringValue] read the store and leave it as it is. *)
Lemma FromProto_store (pb : ptr pb.UUID) (σ : Store) : snd (uuid.FromProto pb σ) = σ.
Proof. unfold uuid.FromProto. now case_bool_decide. Qed.

Lemma FromStringValue_store (sv : ptr wrapperspb.StringValue) (σ : Store) :
  snd (uuid.FromStringValue sv σ) = σ.
Proof. unfold uuid.FromStringValue. now case_bool_decide. Qed.

(** C9.  The helpers are compositions: [StringToProto(s)] is [Parse(s)]
    followed by [ToProto]; [ValidateStringUUID(s)] succeeds exactly when
    [Parse(s)] does; [ProtoToString(pb)] is [FromProto(pb)] followed by
    [String]; [ValidateProtoUUID(pb)] fails exactly when [pb] is nil or
    [Parse] of its field fails.  None of them alters what it is passed:
    [ProtoToString] and [ValidateProtoUUID] leave the store as it is,
    the message [pb] points to included, and [StringToProto] adds at
    most a new message to it. *)
Theorem helpers_compose :
  (forall s σ, uuid.StringToProto s σ = Parse_then_ToProto s σ)
  /\ (forall s, uuid.ValidateStringUUID s = None <-> snd (uuid.Parse s) = None)
  /\ (forall pb σ, uuid.ProtoToString pb σ = FromProto_then_String pb σ)
  /\ (forall pb σ,
        is_Some (fst (uuid.ValidateProtoUUID pb σ))
        <-> pb = nil \/ is_Some (snd (uuid.Parse (fst (GetVal pb σ)))))
  /\ (forall s σ, extends σ (snd (uuid.StringToProto s σ)))
  /\ (forall pb σ, snd (uuid.ProtoToString pb σ) = σ)
  /\ (forall pb σ, snd (uuid.ValidateProtoUUID pb σ) = σ).
Proof.
  split; [|split; [|split; [|split; [|split; [|split]]]]].
  - intros s σ. unfold uuid.StringToProto, Parse_then_ToProto, followed_by.
    now destruct (uuid.Parse s) as [v [e|]].
  - intros s. reflexivity.
  - intros pb σ. unfold uuid.ProtoToString, FromProto_then_String, followed_by. run_M.
    destruct (uuid.FromProto pb σ) as [[v [e|]] σ']; reflexivity.
  - intros pb σ. unfold uuid.ValidateProtoUUID. case_bool_decide as Hpb; run_M; cbn.
    + split; [now left|eauto].
    + split; [now right|]. now intros [?|?].
  - intros s σ. unfold uuid.StringToProto.
    destruct (uuid.Parse s) as [v [e|]]; [apply extends_refl|apply ToProto_extends].
  - intros pb σ. unfold uuid.ProtoToString. run_M.
    pose proof (FromProto_store pb σ) as H.
    destruct (uuid.FromProto pb σ) as [[v [e|]] σ']; exact H.
  - intros pb σ. unfold uuid.ValidateProtoUUID. now case_bool_decide.
Qed.

Lemma helpers_compose_witness :
  snd (uuid.Parse example_text) = None /\ uuid.ValidateStringUUID example_text = None.
Proof.
  assert (H : snd (uuid.Parse example_text) = None) by (vm_compute; reflexivity).
  split; [exact H|].
  destruct helpers_compose as (_ & HV & _).
  exact (proj2 (HV example_text) H).
Defined.

(** The helpers on the identifier of the tests. *)
Example helpers_example :
  let '(r, σ) := uuid.StringToProto example_text empty_store in
  r = (addr 1%positive, None)
  /\ fst (uuid.ProtoToString (fst r) σ) = (example_text, None)
  /\ fst (uuid.ValidateProtoUUID (fst r) σ) = None
  /\ is_Some (fst (uuid.ValidateProtoUUID nil σ)).
Proof. vm_compute. repeat split; eauto. Qed.

(** *** C10 *)

(** C10.  On every failure of [Parse], [FromGoogleUUID], [FromProto] or
    [FromStringValue] the value returned with the error is the zero
    value [ValidatedUUID{}], for which [IsZero()] is true. *)
Theorem error_returns_zero :
  uuid.IsZero uuid.zero = true
  /\ (forall s v e, uuid.Parse s = (v, Some e) -> v = uuid.zero)
  /\ (forall g v e, uuid.FromGoogleUUID g = (v, Some e) -> v = uuid.zero)
  /\ (forall pb σ v e σ', uuid.FromProto pb σ = ((v, Some e), σ') -> v = uuid.zero)
  /\ (forall sv σ v e σ', uuid.FromStringValue sv σ = ((v, Some e), σ') -> v = uuid.zero).
Proof.
  split; [reflexivity|]. split; [exact Parse_error|]. repeat split.
  - intros g v e H. unfold uuid.FromGoogleUUID in H.
    case_bool_decide; [now injection H|discriminate].
  - intros pb σ v e σ' H. unfold uuid.FromProto in H. case_bool_decide; run_M.
    + now injection H.
    + injection H as H _. now apply Parse_error in H.
  - intros sv σ v e σ' H. unfold uuid.FromStringValue in H. case_bool_decide; run_M.
    + now injection H.
    + injection H as H _. now apply Parse_error in H.
Qed.

(** The primitive parser returns the bytes it has read along with its
    error; [Parse] does not pass them on. *)
Example partial_bytes_not_returned :
  let s := "550e8400-e29b-41d4-a716-44665544000g" in
  fst (google_uuid.Parse s) <> google_uuid.Nil
  /\ uuid.Parse s = (uuid.zero, Some (MalformedText google_uuid.ErrInvalidUUIDFormat)).
Proof. split; [discriminate|reflexivity]. Qed.

Lemma error_returns_zero_witness :
  uuid.Parse "not-a-uuid" = (uuid.zero, Some (MalformedText (invalidLengthError 10)))
  /\ uuid.zero = uuid.zero.
Proof.
  assert (H : uuid.Parse "not-a-uuid"
              = (uuid.zero, Some (MalformedText (invalidLengthError 10)))) by reflexivity.
  split; [exact H|].
  destruct error_returns_zero as (_ & HParse & _).
  exact (HParse "not-a-uuid" uuid.zero _ H).
Defined.
(** * Further properties *)

(** ** Text *)

Lemma hex_lower (b : byte) :
  is_lower_hex (google_uuid.hex_hi b) = true /\ is_lower_hex (google_uuid.hex_lo b) = true.
Proof. destruct b; split; reflexivity. Qed.

(** What [String] writes is canonical. *)
Lemma String_canonical (g : list byte) :
  length g = 16 -> canonical (google_uuid.String g) = true.
Proof.
  intros Hlen. unfold canonical.
  rewrite (google_uuid_facts.length_String g Hlen). cbn [Nat.eqb andb].
  destruct (google_uuid_facts.length_16_inv g Hlen)
    as (? & ? & ? & ? & ? & ? & ? & ? & ? & ? & ? & ? & ? & ? & ? & ? & ->).
  unfold google_uuid.String.
  rewrite bytes_string_of_bytes, google_uuid_facts.encodeHex_16.
  cbn [canonical_from].
  repeat (apply andb_true_intro; split);
    try reflexivity;
    match goal with
    | |- (if ?b then _ else _) = true =>
        let b' := eval vm_compute in b in change b with b'; cbv iota
    end;
    first [apply hex_lower | reflexivity].
Qed.

Lemma String_inj (g h : list byte) :
  length g = 16 -> length h = 16 -> google_uuid.String g = google_uuid.String h -> g = h.
Proof.
  intros Hg Hh Heq.
  pose proof (google_uuid_facts.Parse_of_String g Hg) as Pg.
  pose proof (google_uuid_facts.Parse_of_String h Hh) as Ph.
  rewrite Heq in Pg. congruence.
Qed.

Lemma zero_text_String : zero_text = google_uuid.String google_uuid.Nil.
Proof. reflexivity. Qed.

(** The text of a valid value is not the zero text. *)
Lemma String_nonzero (v : uuid.ValidatedUUID) :
  wf v -> uuid.IsZero v = false -> uuid.String v <> zero_text.
Proof.
  intros Hwf Hnz Hz. rewrite zero_text_String in Hz.
  apply String_inj in Hz; [|exact Hwf|reflexivity].
  apply bool_decide_eq_false in Hnz. now apply Hnz.
Qed.

(** X1.  [Parse] normalises: whatever notation [Parse] has accepted,
    the [String] of its result is a canonical text, is not the zero
    text, and parses to the same value again. *)
Theorem Parse_normalises (s : string) (v : uuid.ValidatedUUID) :
  uuid.Parse s = (v, None) ->
  canonical (uuid.String v) = true
  /\ uuid.String v <> zero_text
  /\ uuid.Parse (uuid.String v) = (v, None).
Proof.
  intros H. pose proof (Parse_wf s v H) as Hwf. pose proof (Parse_nonzero s v H) as Hnz.
  split; [now apply String_canonical|].
  split; [now apply String_nonzero|now apply Parse_String].
Qed.

Lemma Parse_normalises_witness :
  uuid.Parse "{550E8400-E29B-41D4-A716-446655440000}" = (example_uuid, None)
  /\ canonical (uuid.String example_uuid) = true
  /\ uuid.String example_uuid <> zero_text
  /\ uuid.Parse (uuid.String example_uuid) = (example_uuid, None).
Proof.
  assert (H : uuid.Parse "{550E8400-E29B-41D4-A716-446655440000}" = (example_uuid, None))
    by (vm_compute; reflexivity).
  split; [exact H|]. exact (Parse_normalises _ _ H).
Defined.

(** X2.  [String] tells values apart: it writes 36 bytes, two
    well-formed values with the same text are equal, and [IsZero] holds
    exactly of the value whose text is the zero text. *)
Theorem String_injective (u v : uuid.ValidatedUUID) :
  wf u -> wf v ->
  String.length (uuid.String u) = 36
  /\ (uuid.String u = uuid.String v -> u = v)
  /\ (uuid.IsZero u = true <-> uuid.String u = zero_text).
Proof.
  intros Hu Hv. destruct u as [g], v as [h]. unfold wf in Hu, Hv. cbn in Hu, Hv.
  unfold uuid.String, uuid.IsZero. cbn [uuid.UUID].
  split; [now apply google_uuid_facts.length_String|]. split.
  - intros Heq. f_equal. now apply String_inj.
  - rewrite bool_decide_eq_true. split.
    + now intros ->.
    + intros Heq. rewrite zero_text_String in Heq. now apply String_inj in Heq.
Qed.

Lemma String_injective_witness :
  wf example_uuid /\ wf uuid.zero
  /\ String.length (uuid.String example_uuid) = 36
  /\ (uuid.String example_uuid = uuid.String uuid.zero -> example_uuid = uuid.zero)
  /\ (uuid.IsZero example_uuid = true <-> uuid.String example_uuid = zero_text).
Proof.
  assert (Hu : wf example_uuid) by reflexivity.
  assert (Hz : wf uuid.zero) by reflexivity.
  split; [exact Hu|]. split; [exact Hz|]. exact (String_injective _ _ Hu Hz).
Defined.

(** X3.  The valid values are the values [Parse] produces: [Validate]
    accepts a well-formed value exactly when some text parses to it,
    and then a canonical text does. *)
Theorem valid_iff_parsable (u : uuid.ValidatedUUID) :
  wf u ->
  (uuid.Validate u = None <-> exists s, uuid.Parse s = (u, None))
  /\ (uuid.Validate u = None ->
      canonical (uuid.String u) = true /\ uuid.Parse (uuid.String u) = (u, None)).
Proof.
  intros Hwf. rewrite Validate_IsZero.
  assert (Hfwd : (if uuid.IsZero u then Some ZeroValue else None) = None ->
                 canonical (uuid.String u) = true
                 /\ uuid.Parse (uuid.String u) = (u, None)).
  { destruct (uuid.IsZero u) eqn:Hz; [discriminate|]. intros _.
    split; [now apply String_canonical|now apply Parse_String]. }
  split; [|exact Hfwd]. split.
  - intros H. exists (uuid.String u). now apply Hfwd.
  - intros [s Hs]. now rewrite (Parse_nonzero s u Hs).
Qed.

Lemma valid_iff_parsable_witness :
  wf example_uuid
  /\ (uuid.Validate example_uuid = None <-> exists s, uuid.Parse s = (example_uuid, None))
  /\ (uuid.Validate example_uuid = None ->
      canonical (uuid.String example_uuid) = true
      /\ uuid.Parse (uuid.String example_uuid) = (example_uuid, None)).
Proof.
  assert (Hu : wf example_uuid) by reflexivity.
  split; [exact Hu|]. exact (valid_iff_parsable _ Hu).
Defined.

(** X4.  [FromGoogleUUID] decides as [Parse] of the text does: for a
    raw identifier [g] it returns what [Parse(g.String())] returns, the
    error included; on success the result holds [g] itself, so that
    its text is the text of [g]. *)
Theorem FromGoogleUUID_as_Parse (g : list byte) :
  length g = 16 ->
  uuid.FromGoogleUUID g = uuid.Parse (google_uuid.String g)
  /\ (forall v, uuid.FromGoogleUUID g = (v, None) ->
                uuid.UUID v = g /\ uuid.String v = google_uuid.String g).
Proof.
  intros Hlen. split.
  - unfold uuid.FromGoogleUUID. case_bool_decide as Hz.
    + subst g. reflexivity.
    + symmetry. apply (Parse_String {| uuid.UUID := g |} Hlen). now apply IsZero_false.
  - intros v. unfold uuid.FromGoogleUUID. case_bool_decide; [discriminate|].
    intros [= <-]. split; reflexivity.
Qed.

Lemma FromGoogleUUID_as_Parse_witness :
  length (uuid.UUID example_uuid) = 16
  /\ uuid.FromGoogleUUID (uuid.UUID example_uuid) = uuid.Parse example_text
  /\ uuid.FromGoogleUUID google_uuid.Nil = uuid.Parse zero_text.
Proof.
  split; [reflexivity|]. split.
  - exact (proj1 (FromGoogleUUID_as_Parse (uuid.UUID example_uuid) eq_refl)).
  - exact (proj1 (FromGoogleUUID_as_Parse google_uuid.Nil eq_refl)).
Defined.

(** X5.  [Parse] reads texts of 32, 36, 38 and 45 bytes only: a text it
    accepts has one of these lengths, and a text of any other length
    that is not empty fails with [MalformedText] around the length
    error of the primitive parser. *)
Theorem Parse_length_gate (s : string) :
  (forall v, uuid.Parse s = (v, None) -> String.length s ∈ accepted_lengths)
  /\ (s <> "" -> String.length s ∉ accepted_lengths ->
      uuid.Parse s
      = (uuid.zero, Some (MalformedText (invalidLengthError (String.length s))))).
Proof.
  assert (Hbad : String.length s ∉ accepted_lengths ->
                 google_uuid.Parse s
                 = (google_uuid.Nil, Some (invalidLengthError (String.length s)))).
  { intros Hn. unfold google_uuid.Parse, accepted_lengths in *.
    repeat match goal with
           | |- context [?a =? ?b] =>
               let E := fresh "E" in
               destruct (Nat.eqb_spec a b) as [E|E];
               [exfalso; apply Hn; rewrite E; set_solver|]
           end.
    reflexivity. }
  split.
  - intros v Hv. destruct (decide (String.length s ∈ accepted_lengths)) as [|Hn]; [easy|].
    apply Parse_ok in Hv as (_ & Hg & _). rewrite (Hbad Hn) in Hg. discriminate Hg.
  - intros Hs Hn. unfold uuid.Parse. rewrite bool_decide_eq_false_2 by exact Hs.
    now rewrite (Hbad Hn).
Qed.

Lemma Parse_length_gate_witness :
  "not-a-uuid" <> "" /\ (String.length "not-a-uuid" ∉ accepted_lengths)
  /\ uuid.Parse "not-a-uuid" = (uuid.zero, Some (MalformedText (invalidLengthError 10))).
Proof.
  assert (Hs : "not-a-uuid" <> "") by discriminate.
  assert (Hn : String.length "not-a-uuid" ∉ accepted_lengths)
    by (apply (bool_decide_unpack _); vm_compute; exact I).
  split; [exact Hs|]. split; [exact Hn|].
  exact (proj2 (Parse_length_gate "not-a-uuid") Hs Hn).
Defined.

(** *** The notations [Parse] reads *)

Lemma bytes_cons (c : ascii) (s : string) :
  bytes (String c s) = byte_of_ascii c :: bytes s.
Proof. reflexivity. Qed.

Lemma bytes_app (s t : string) : bytes (s ++ t) = bytes s ++ bytes t.
Proof.
  induction s as [|c s IH]; [reflexivity|].
  change (bytes (String c (s ++ t)) = byte_of_ascii c :: (bytes s ++ bytes t)).
  now rewrite bytes_cons, IH.
Qed.

Lemma bytes_inj (s t : string) : bytes s = bytes t -> s = t.
Proof. intros H. rewrite <- (string_of_bytes_bytes s), <- (string_of_bytes_bytes t). now rewrite H. Qed.

Lemma slice_to_bytes (n : nat) : forall s, bytes (slice_to n s) = take n (bytes s).
Proof.
  induction n as [|n IH]; intros [|c s]; try reflexivity.
  cbn [slice_to]. rewrite !bytes_cons, IH. reflexivity.
Qed.

Lemma slice_from_bytes (n : nat) : forall s, bytes (slice_from n s) = drop n (bytes s).
Proof.
  induction n as [|n IH]; intros [|c s]; try reflexivity.
  cbn [slice_from]. rewrite bytes_cons. apply IH.
Qed.

Lemma at_lookup (s : string) (i : nat) : at_ s i = default x00 (bytes s !! i).
Proof. unfold at_. now rewrite list_lookup_total_alt. Qed.

Lemma EqualFold_bytes_length (p : list byte) : forall q,
  google_uuid.EqualFold_bytes p q = true -> length p = length q.
Proof.
  induction p as [|x p IH]; intros [|y q] H; try discriminate H; [reflexivity|].
  cbn in H. apply andb_prop in H as [_ H]. cbn. f_equal. now apply IH.
Qed.

Lemma xtob_ext (x1 x2 y1 y2 : byte) :
  google_uuid.xvalues x1 = google_uuid.xvalues y1 ->
  google_uuid.xvalues x2 = google_uuid.xvalues y2 ->
  google_uuid.xtob x1 x2 = google_uuid.xtob y1 y2.
Proof. intros H1 H2. unfold google_uuid.xtob. now rewrite H1, H2. Qed.

Lemma parse_hyphenated_ext (s t : string) (xs : list nat) : forall i u,
  (forall x, x ∈ xs ->
     google_uuid.xtob (at_ s x) (at_ s (x + 1)) = google_uuid.xtob (at_ t x) (at_ t (x + 1))) ->
  google_uuid.parse_hyphenated s i xs u = google_uuid.parse_hyphenated t i xs u.
Proof.
  induction xs as [|x xs IH]; intros i u H; [reflexivity|].
  cbn [google_uuid.parse_hyphenated]. rewrite (H x) by left.
  destruct (google_uuid.xtob (at_ t x) (at_ t (x + 1))) as [v ok].
  destruct (negb ok); [reflexivity|]. apply IH. intros y Hy. apply H. now right.
Qed.

Lemma parse_plain_ext (s t : string) (idx : list nat) : forall u,
  (forall i, i ∈ idx ->
     google_uuid.xtob (at_ s (i * 2)) (at_ s (i * 2 + 1))
     = google_uuid.xtob (at_ t (i * 2)) (at_ t (i * 2 + 1))) ->
  google_uuid.parse_plain s idx u = google_uuid.parse_plain t idx u.
Proof.
  induction idx as [|i idx IH]; intros u H; [reflexivity|].
  cbn [google_uuid.parse_plain]. rewrite (H i) by left.
  destruct (google_uuid.xtob (at_ t (i * 2)) (at_ t (i * 2 + 1))) as [v ok].
  destruct (negb ok); [reflexivity|]. apply IH. intros y Hy. apply H. now right.
Qed.

(** The hyphenated form is read from the first 36 bytes, and from
    them only what [xvalues] and the test for a hyphen see. *)
Lemma parse_tail_ext (s t : string) (u : list byte) :
  (forall i, i < 36 -> google_uuid.xvalues (at_ s i) = google_uuid.xvalues (at_ t i)) ->
  (forall i, i < 36 ->
     bool_decide (at_ s i = "-"%byte) = bool_decide (at_ t i = "-"%byte)) ->
  google_uuid.parse_tail s u = google_uuid.parse_tail t u.
Proof.
  intros Hx Hh. unfold google_uuid.parse_tail.
  rewrite (Hh 8), (Hh 13), (Hh 18), (Hh 23) by lia.
  match goal with |- (if ?b then _ else _) = _ => destruct b end; [reflexivity|].
  apply parse_hyphenated_ext. intros x Hin.
  assert (x < 35) as Hlt.
  { revert Hin. unfold google_uuid.offsets. rewrite !elem_of_cons, elem_of_nil. lia. }
  apply xtob_ext; apply Hx; lia.
Qed.

(** [Parse] adds to the primitive parser the tests for the empty text
    and for the zero value only. *)
Lemma Parse_congr (s t : string) :
  s <> "" -> t <> "" -> google_uuid.Parse s = google_uuid.Parse t ->
  uuid.Parse s = uuid.Parse t.
Proof.
  intros Hs Ht H. unfold uuid.Parse.
  rewrite !bool_decide_eq_false_2 by assumption. now rewrite H.
Qed.

Lemma length_nonempty (s : string) (n : nat) : String.length s = S n -> s <> "".
Proof. now intros H ->. Qed.

Lemma length_append (s t : string) :
  String.length (s ++ t) = String.length s + String.length t.
Proof. now rewrite <- !length_bytes, bytes_app, length_app. Qed.

(** X6.  The wrapped notations: a text of 36 bytes after a prefix that
    is [urn:uuid:] up to case, or between two bytes of any kind (braces
    are not required), is parsed as the 36 bytes alone are, the error
    included. *)
Theorem Parse_wrapped_forms (t : string) :
  String.length t = 36 ->
  (forall p, google_uuid.EqualFold p "urn:uuid:" = true ->
             uuid.Parse (p ++ t) = uuid.Parse t)
  /\ (forall a b, uuid.Parse (String a (t ++ String b "")) = uuid.Parse t).
Proof.
  intros Ht.
  assert (Hraw : google_uuid.Parse t = google_uuid.parse_tail t google_uuid.Nil)
    by (unfold google_uuid.Parse; now rewrite Ht).
  split.
  - intros p Hp.
    assert (Hlen : String.length p = 9).
    { rewrite <- length_bytes. now apply EqualFold_bytes_length in Hp. }
    assert (Hto : slice_to 9 (p ++ t) = p).
    { apply bytes_inj. rewrite slice_to_bytes, bytes_app, take_app_length'; [easy|].
      now rewrite length_bytes. }
    assert (Hfrom : slice_from 9 (p ++ t) = t).
    { apply bytes_inj. rewrite slice_from_bytes, bytes_app, drop_app_length'; [easy|].
      now rewrite length_bytes. }
    apply Parse_congr.
    + apply (length_nonempty _ 44). now rewrite length_append, Hlen, Ht.
    + now apply (length_nonempty _ 35).
    + rewrite Hraw. unfold google_uuid.Parse.
      rewrite length_append, Hlen, Ht. cbn [Nat.add Nat.eqb].
      now rewrite Hto, Hp, Hfrom.
  - intros a b. apply Parse_congr; [discriminate|now apply (length_nonempty _ 35)|].
    rewrite Hraw. unfold google_uuid.Parse.
    cbn [String.length]. rewrite length_append, Ht. cbn [String.length Nat.add Nat.eqb].
    cbn [slice_from].
    assert (Hat : forall i, i < 36 -> at_ (t ++ String b "") i = at_ t i).
    { intros i Hi. unfold at_. rewrite bytes_app.
      apply lookup_total_app_l. now rewrite length_bytes, Ht. }
    apply parse_tail_ext; intros i Hi; now rewrite Hat.
Qed.

Lemma Parse_wrapped_forms_witness :
  String.length example_text = 36
  /\ uuid.Parse ("URN:uuid:" ++ example_text) = (example_uuid, None)
  /\ uuid.Parse (String "<" (example_text ++ String "]" "")) = (example_uuid, None).
Proof.
  assert (Ht : String.length example_text = 36) by reflexivity.
  destruct (Parse_wrapped_forms example_text Ht) as [Hurn Hbr].
  split; [exact Ht|]. split.
  - exact (Hurn "URN:uuid:" eq_refl).
  - exact (Hbr "<"%char "]"%char).
Defined.

(** *** Case *)

Lemma all_bytes_spec (x : byte) : x ∈ all_bytes.
Proof.
  unfold all_bytes. apply list_elem_of_fmap. exists (N.to_nat (Byte.to_N x)). split.
  - rewrite N2Nat.id. unfold u8. pose proof (Byte.to_N_bounded x).
    rewrite N.mod_small by lia. now rewrite Byte.of_to_N.
  - apply elem_of_seq. pose proof (Byte.to_N_bounded x). lia.
Qed.

Lemma for_all_bytes (P : byte -> byte -> bool) :
  forallb (fun x => forallb (P x) all_bytes) all_bytes = true ->
  forall x y, P x y = true.
Proof.
  intros H x y. rewrite forallb_forall in H.
  specialize (H x (proj1 (list_elem_of_In _ _) (all_bytes_spec x))).
  rewrite forallb_forall in H.
  exact (H y (proj1 (list_elem_of_In _ _) (all_bytes_spec y))).
Qed.

(** [fold_eq] compares the lower-case forms. *)
Lemma fold_eq_lower (x y : byte) :
  google_uuid.fold_eq x y = bool_decide (lower x = lower y).
Proof.
  assert (H : forallb (fun x => forallb (fun y =>
                Bool.eqb (google_uuid.fold_eq x y) (bool_decide (lower x = lower y)))
                all_bytes) all_bytes = true) by (vm_compute; reflexivity).
  apply Bool.eqb_prop. exact (for_all_bytes _ H x y).
Qed.

Lemma EqualFold_bytes_lower (p : list byte) : forall q,
  google_uuid.EqualFold_bytes p q = true <-> lower <$> p = lower <$> q.
Proof.
  induction p as [|x p IH]; intros [|y q]; cbn; try easy.
  rewrite andb_true_iff, fold_eq_lower, bool_decide_eq_true, IH.
  split; [now intros [-> ->]|]. now intros [= -> ->].
Qed.

Lemma xvalues_lower (x : byte) : google_uuid.xvalues (lower x) = google_uuid.xvalues x.
Proof. destruct x; reflexivity. Qed.

Lemma hyphen_lower (x : byte) :
  bool_decide (lower x = "-"%byte) = bool_decide (x = "-"%byte).
Proof. destruct x; reflexivity. Qed.

Lemma same_case_at (s t : string) (i : nat) :
  same_up_to_case s t -> lower (at_ s i) = lower (at_ t i).
Proof.
  intros H. rewrite !at_lookup. apply (f_equal (fun l => l !! i)) in H.
  rewrite !list_lookup_fmap in H.
  destruct (bytes s !! i), (bytes t !! i); cbn in *; congruence.
Qed.

Lemma same_case_length (s t : string) :
  same_up_to_case s t -> String.length s = String.length t.
Proof.
  intros H. apply (f_equal length) in H.
  now rewrite !length_fmap, !length_bytes in H.
Qed.

Lemma same_case_slice_from (n : nat) (s t : string) :
  same_up_to_case s t -> same_up_to_case (slice_from n s) (slice_from n t).
Proof.
  unfold same_up_to_case. intros H. rewrite !slice_from_bytes, !fmap_drop. now rewrite H.
Qed.

Lemma same_case_parse_tail (s t : string) (u : list byte) :
  same_up_to_case s t -> google_uuid.parse_tail s u = google_uuid.parse_tail t u.
Proof.
  intros H. apply parse_tail_ext; intros i _.
  - now rewrite <- (xvalues_lower (at_ s i)), (same_case_at s t i H), xvalues_lower.
  - now rewrite <- (hyphen_lower (at_ s i)), (same_case_at s t i H), hyphen_lower.
Qed.

(** What the primitive parser accepts it accepts in any case. *)
Lemma raw_Parse_case (s t : string) (g : list byte) :
  same_up_to_case s t ->
  google_uuid.Parse s = (g, None) -> google_uuid.Parse t = (g, None).
Proof.
  intros H. unfold google_uuid.Parse. rewrite <- (same_case_length s t H).
  destruct (String.length s =? 36); [now rewrite (same_case_parse_tail s t)|].
  destruct (String.length s =? 36 + 9).
  { destruct (google_uuid.EqualFold (slice_to 9 s) "urn:uuid:") eqn:Hp; [|discriminate].
    cbn [negb]. intros Hs.
    assert (Ht : google_uuid.EqualFold (slice_to 9 t) "urn:uuid:" = true).
    { unfold google_uuid.EqualFold in *. apply EqualFold_bytes_lower.
      apply EqualFold_bytes_lower in Hp. rewrite <- Hp.
      rewrite !slice_to_bytes, !fmap_take. now rewrite H. }
    rewrite Ht. cbn [negb].
    now rewrite <- (same_case_parse_tail _ _ _ (same_case_slice_from 9 s t H)). }
  destruct (String.length s =? 36 + 2).
  { now rewrite <- (same_case_parse_tail _ _ _ (same_case_slice_from 1 s t H)). }
  destruct (String.length s =? 32); [|discriminate].
  rewrite (parse_plain_ext s t); [easy|]. intros i _.
  apply xtob_ext;
    match goal with
    | |- _ (at_ s ?j) = _ =>
        now rewrite <- (xvalues_lower (at_ s j)), (same_case_at s t j H), xvalues_lower
    end.
Qed.

Lemma same_case_sym (s t : string) : same_up_to_case s t -> same_up_to_case t s.
Proof. unfold same_up_to_case. now intros ->. Qed.

Lemma Parse_case (s t : string) (v : uuid.ValidatedUUID) :
  same_up_to_case s t -> uuid.Parse s = (v, None) -> uuid.Parse t = (v, None).
Proof.
  intros H Hs. apply Parse_ok in Hs as (Hne & Hg & Hnz).
  apply (raw_Parse_case s t _ H) in Hg.
  unfold uuid.Parse. rewrite bool_decide_eq_false_2.
  - rewrite Hg. rewrite bool_decide_eq_false_2 by exact Hnz. now destruct v.
  - intros ->. apply same_case_length in H. destruct s; [now apply Hne|discriminate H].
Qed.

(** X7.  [Parse] does not look at the case of letters: two texts that
    differ in the case of ASCII letters only (in the digits or in the
    [urn:uuid:] prefix) are accepted together, with the same value. *)
Theorem Parse_case_insensitive (s t : string) (v : uuid.ValidatedUUID) :
  same_up_to_case s t ->
  uuid.Parse s = (v, None) <-> uuid.Parse t = (v, None).
Proof.
  intros H. split; apply Parse_case; [exact H|now apply same_case_sym].
Qed.

Lemma Parse_case_insensitive_witness :
  same_up_to_case "URN:UUID:550E8400-e29b-41D4-a716-446655440000"
                  "urn:uuid:550e8400-e29b-41d4-a716-446655440000"
  /\ uuid.Parse "URN:UUID:550E8400-e29b-41D4-a716-446655440000" = (example_uuid, None).
Proof.
  assert (H : same_up_to_case "URN:UUID:550E8400-e29b-41D4-a716-446655440000"
                              "urn:uuid:550e8400-e29b-41d4-a716-446655440000")
    by reflexivity.
  split; [exact H|].
  apply (Parse_case_insensitive _ _ example_uuid H). reflexivity.
Defined.

(** X8.  The notation without hyphens: the 32 digits [hex.Encode]
    writes for the bytes of a valid value parse to the value. *)
Theorem Parse_plain_form (v : uuid.ValidatedUUID) :
  wf v -> uuid.IsZero v = false ->
  uuid.Parse (string_of_bytes (google_uuid.hex_Encode (uuid.UUID v))) = (v, None).
Proof.
  intros Hwf Hnz. destruct v as [g]. unfold wf in Hwf. cbn [uuid.UUID] in *.
  apply bool_decide_eq_false in Hnz. cbn [uuid.UUID] in Hnz.
  destruct (google_uuid_facts.length_16_inv g Hwf)
    as (? & ? & ? & ? & ? & ? & ? & ? & ? & ? & ? & ? & ? & ? & ? & ? & ->).
  unfold uuid.Parse. rewrite bool_decide_eq_false_2 by discriminate.
  unfold google_uuid.Parse. rewrite length_string_of_bytes.
  cbn [google_uuid.hex_Encode flat_map app length Nat.eqb Nat.add seq].
  cbn [google_uuid.parse_plain]. unfold at_. rewrite !bytes_string_of_bytes.
  cbn [Nat.mul Nat.add lookup_total list_lookup_total].
  rewrite !google_uuid_facts.xtob_hex. cbn [negb].
  rewrite bool_decide_eq_false_2 by exact Hnz. reflexivity.
Qed.

Lemma Parse_plain_form_witness :
  wf example_uuid /\ uuid.IsZero example_uuid = false
  /\ uuid.Parse "550e8400e29b41d4a716446655440000" = (example_uuid, None).
Proof.
  assert (Hwf : wf example_uuid) by reflexivity.
  assert (Hnz : uuid.IsZero example_uuid = false) by reflexivity.
  split; [exact Hwf|]. split; [exact Hnz|].
  exact (Parse_plain_form example_uuid Hwf Hnz).
Defined.

(** *** The text of a parsed value *)

(** The byte two digits decode to is written with the same digits, in
    lower case. *)
Lemma xtob_lower (c1 c2 b : byte) :
  google_uuid.xtob c1 c2 = (b, true) ->
  google_uuid.hex_hi b = lower c1 /\ google_uuid.hex_lo b = lower c2.
Proof.
  intros H.
  assert (Hall : forallb (fun x => forallb (fun y =>
    implb (snd (google_uuid.xtob x y))
      (bool_decide (google_uuid.hex_hi (fst (google_uuid.xtob x y)) = lower x)
       && bool_decide (google_uuid.hex_lo (fst (google_uuid.xtob x y)) = lower y)))
    all_bytes) all_bytes = true) by (vm_compute; reflexivity).
  apply for_all_bytes with (x := c1) (y := c2) in Hall.
  rewrite H in Hall. cbn [fst snd implb] in Hall.
  apply andb_prop in Hall as [H1 H2].
  apply bool_decide_eq_true in H1, H2. now split.
Qed.

Lemma lower_idemp (x : byte) : lower (lower x) = lower x.
Proof. destruct x; reflexivity. Qed.

Lemma to_lower_same_case (t : string) : same_up_to_case (to_lower t) t.
Proof.
  unfold same_up_to_case, to_lower. rewrite bytes_string_of_bytes, <- list_fmap_compose.
  apply list_fmap_ext. intros _ x _. apply lower_idemp.
Qed.

(** From a text of 36 bytes the primitive parser reads the bytes that
    [String] writes as the text in lower case. *)
Lemma raw_text_lower (t : string) (g : list byte) :
  String.length t = 36 -> google_uuid.Parse t = (g, None) ->
  google_uuid.String g = to_lower t.
Proof.
  intros Hlen. unfold google_uuid.Parse. rewrite Hlen. cbn [Nat.eqb].
  unfold to_lower. rewrite <- length_bytes in Hlen.
  rewrite <- (string_of_bytes_bytes t) at 1.
  destruct (bytes t) as [|a0 [|a1 [|a2 [|a3 [|a4 [|a5 [|a6 [|a7 [|a8 [|a9 [|a10 [|a11 [|a12 [|a13
    [|a14 [|a15 [|a16 [|a17 [|a18 [|a19 [|a20 [|a21 [|a22 [|a23 [|a24 [|a25 [|a26
    [|a27 [|a28 [|a29 [|a30 [|a31 [|a32 [|a33 [|a34 [|a35 [|?
    ?]]]]]]]]]]]]]]]]]]]]]]]]]]]]]]]]]]]]];
    try discriminate Hlen.
  clear Hlen. unfold google_uuid.parse_tail, at_. rewrite !bytes_string_of_bytes.
  cbn [lookup_total list_lookup_total].
  repeat case_bool_decide; cbn [negb orb]; try discriminate. subst.
  unfold google_uuid.offsets. cbn [google_uuid.parse_hyphenated]. unfold at_.
  rewrite !bytes_string_of_bytes. cbn [Nat.add lookup_total list_lookup_total].
  repeat match goal with
         | |- context [google_uuid.xtob ?x ?y] =>
             let v := fresh "v" in
             let E := fresh "E" in
             destruct (google_uuid.xtob x y) as [v [|]] eqn:E;
             cbn [negb]; [apply xtob_lower in E as [? ?]|discriminate]
         end.
  intros [= <-]. unfold google_uuid.String. f_equal.
  cbn [list_insert insert google_uuid.Nil replicate].
  rewrite google_uuid_facts.encodeHex_16. cbn [fmap list_fmap].
  repeat match goal with H : _ = lower _ |- _ => rewrite H; clear H end.
  reflexivity.
Qed.

(** X9.  The hyphenated notation in full: a text of 36 bytes is
    accepted exactly when its lower-case form is canonical and is not
    the zero text, and the text of the value [Parse] returns is then
    the lower-case form of the input. *)
Theorem String_of_Parse (t : string) :
  String.length t = 36 ->
  (forall v, uuid.Parse t = (v, None) -> uuid.String v = to_lower t)
  /\ ((exists v, uuid.Parse t = (v, None))
      <-> canonical (to_lower t) = true /\ to_lower t <> zero_text).
Proof.
  intros Hlen.
  assert (Htext : forall v, uuid.Parse t = (v, None) -> uuid.String v = to_lower t).
  { intros v Hv. apply Parse_ok in Hv as (_ & Hg & _).
    now apply raw_text_lower. }
  split; [exact Htext|]. split.
  - intros [v Hv]. rewrite <- (Htext v Hv).
    pose proof (Parse_wf t v Hv). pose proof (Parse_nonzero t v Hv).
    split; [now apply String_canonical|now apply String_nonzero].
  - intros [Hc Hnz].
    destruct (google_uuid_facts.canonical_String _ Hc) as (g & Hg & Heq).
    exists {| uuid.UUID := g |}.
    apply (Parse_case (to_lower t) t); [apply to_lower_same_case|].
    rewrite Heq. apply (Parse_String {| uuid.UUID := g |} Hg).
    apply IsZero_false. intros ->. apply Hnz. now rewrite Heq.
Qed.

Lemma String_of_Parse_witness :
  String.length "550E8400-E29B-41d4-A716-446655440000" = 36
  /\ uuid.Parse "550E8400-E29B-41d4-A716-446655440000" = (example_uuid, None)
  /\ uuid.String example_uuid = to_lower "550E8400-E29B-41d4-A716-446655440000".
Proof.
  assert (Hlen : String.length "550E8400-E29B-41d4-A716-446655440000" = 36) by reflexivity.
  assert (H : uuid.Parse "550E8400-E29B-41d4-A716-446655440000" = (example_uuid, None))
    by reflexivity.
  split; [exact Hlen|]. split; [exact H|].
  exact (proj1 (String_of_Parse _ Hlen) example_uuid H).
Defined.

(** ** The panicking variants *)

Lemma FromGoogleUUID_ok (v : uuid.ValidatedUUID) :
  uuid.IsZero v = false -> uuid.FromGoogleUUID (uuid.UUID v) = (v, None).
Proof.
  intros Hnz. apply bool_decide_eq_false in Hnz. unfold uuid.FromGoogleUUID.
  rewrite bool_decide_eq_false_2 by exact Hnz. now destruct v.
Qed.

(** X10.  No panicking variant panics on a valid value or on its text:
    [MustParse] of the text and [MustFromGoogleUUID] of the bytes
    return the value; [MustToProto] returns a message from which
    [MustFromProto] returns the value and [MustProtoToString] its
    text; [MustStringToProto] of the text returns such a message
    too. *)
Theorem Must_round_trips (v : uuid.ValidatedUUID) (σ : Store) :
  wf v -> uuid.IsZero v = false ->
  uuid.MustParse (uuid.String v) = Return v
  /\ uuid.MustFromGoogleUUID (uuid.UUID v) = Return v
  /\ (exists p σ',
        uuid.MustToProto v σ = (Return p, σ')
        /\ uuid.MustFromProto p σ' = (Return v, σ')
        /\ uuid.MustProtoToString p σ' = (Return (uuid.String v), σ'))
  /\ (exists p σ',
        uuid.MustStringToProto (uuid.String v) σ = (Return p, σ')
        /\ uuid.MustFromProto p σ' = (Return v, σ')).
Proof.
  intros Hwf Hnz. pose proof (Parse_String v Hwf Hnz) as HP.
  assert (Hfrom : forall l σ', uuids σ' !! l = Some (pb.mkUUID (uuid.String v)) ->
                    uuid.FromProto (addr l) σ' = ((v, None), σ')).
  { intros l σ' Hl. rewrite FromProto_addr, Hl. cbn [from_option pb.Val]. now rewrite HP. }
  assert (Hto : uuid.ToProto v σ
                = ((addr (fresh (dom (uuids σ))), None),
                   {| uuids := <[fresh (dom (uuids σ)) := pb.mkUUID (uuid.String v)]> (uuids σ);
                      stringValues := stringValues σ |}))
    by (now rewrite ToProto_cases, Hnz).
  split; [|split; [|split]].
  - unfold uuid.MustParse. now rewrite HP.
  - unfold uuid.MustFromGoogleUUID. now rewrite (FromGoogleUUID_ok v Hnz).
  - eexists _, _. unfold uuid.MustToProto, uuid.MustFromProto, uuid.MustProtoToString,
      uuid.ProtoToString.
    unfold mbind, mret, M_bind, M_ret. rewrite Hto.
    split; [reflexivity|].
    rewrite Hfrom by (cbn; apply lookup_insert_eq). split; reflexivity.
  - eexists _, _. unfold uuid.MustStringToProto, uuid.StringToProto, uuid.MustFromProto.
    unfold mbind, mret, M_bind, M_ret. rewrite HP, Hto.
    split; [reflexivity|].
    rewrite Hfrom by (cbn; apply lookup_insert_eq). reflexivity.
Qed.

Lemma Must_round_trips_witness :
  wf example_uuid /\ uuid.IsZero example_uuid = false
  /\ uuid.MustParse example_text = Return example_uuid
  /\ exists p σ',
       uuid.MustToProto example_uuid empty_store = (Return p, σ')
       /\ uuid.MustFromProto p σ' = (Return example_uuid, σ')
       /\ uuid.MustProtoToString p σ' = (Return example_text, σ').
Proof.
  assert (Hwf : wf example_uuid) by reflexivity.
  assert (Hnz : uuid.IsZero example_uuid = false) by reflexivity.
  destruct (Must_round_trips example_uuid empty_store Hwf Hnz) as (H1 & _ & H3 & _).
  split; [exact Hwf|]. split; [exact Hnz|]. split; [exact H1|exact H3].
Defined.

(** X11.  When the panicking variants panic: [MustParse] panics exactly
    when [Parse] fails, and [MustStringToProto] then panics too, both
    with the error of [Parse] as it is; [MustFromGoogleUUID] panics
    exactly on the zero identifier; [MustToProto] panics exactly on a
    zero value; [MustFromProto] and [MustProtoToString] panic on nil
    and on a message whose text [Parse] refuses, with the error of
    [Parse].  A call that panics has allocated no message. *)
Theorem Must_panics :
  (forall s e, uuid.MustParse s = Panic e <-> snd (uuid.Parse s) = Some e)
  /\ (forall s e σ, snd (uuid.Parse s) = Some e ->
                    uuid.MustStringToProto s σ = (Panic e, σ))
  /\ (forall g, (exists e, uuid.MustFromGoogleUUID g = Panic e) <-> g = google_uuid.Nil)
  /\ uuid.MustFromGoogleUUID google_uuid.Nil = Panic ZeroValue
  /\ (forall u σ,
        (exists e, fst (uuid.MustToProto u σ) = Panic e) <-> uuid.IsZero u = true)
  /\ (forall u σ, uuid.IsZero u = true ->
        uuid.MustToProto u σ
        = (Panic (wrapError "UUID validation failed during protobuf marshalling: "
                    ZeroValue), σ))
  /\ (forall σ,
        uuid.MustFromProto nil σ = (Panic (NilMessage "protobuf UUID"), σ)
        /\ uuid.MustProtoToString nil σ = (Panic (NilMessage "protobuf UUID"), σ))
  /\ (forall l val e σ,
        uuids σ !! l = Some (pb.mkUUID val) -> snd (uuid.Parse val) = Some e ->
        uuid.MustFromProto (addr l) σ = (Panic e, σ)
        /\ uuid.MustProtoToString (addr l) σ = (Panic e, σ)).
Proof.
  split; [|split; [|split; [|split; [|split; [|split; [|split]]]]]].
  - intros s e. unfold uuid.MustParse.
    destruct (uuid.Parse s) as [v [e'|]]; cbn; split; congruence.
  - intros s e σ. unfold uuid.MustStringToProto, uuid.StringToProto.
    unfold mbind, mret, M_bind, M_ret.
    destruct (uuid.Parse s) as [v [e'|]]; cbn; [|discriminate]. now intros [= ->].
  - intros g. unfold uuid.MustFromGoogleUUID, uuid.FromGoogleUUID.
    case_bool_decide as Hg; cbn; split.
    + now intros _.
    + eauto.
    + intros [e He]. discriminate He.
    + intros ->. now destruct Hg.
  - reflexivity.
  - intros u σ. unfold uuid.MustToProto, mbind, mret, M_bind, M_ret.
    rewrite ToProto_cases. destruct (uuid.IsZero u); cbn; split; eauto.
    + intros [e He]. discriminate He.
    + discriminate.
  - intros u σ Hz. unfold uuid.MustToProto, mbind, mret, M_bind, M_ret.
    now rewrite ToProto_cases, Hz.
  - intros σ. split; reflexivity.
  - intros l val e σ Hl He.
    unfold uuid.MustFromProto, uuid.MustProtoToString, uuid.ProtoToString.
    unfold mbind, mret, M_bind, M_ret. rewrite FromProto_addr, Hl. cbn [from_option pb.Val].
    destruct (uuid.Parse val) as [v [e'|]]; cbn in He; [|discriminate].
    injection He as ->. split; reflexivity.
Qed.

Lemma Must_panics_witness :
  snd (uuid.Parse "") = Some EmptyInput
  /\ uuid.MustParse "" = Panic EmptyInput
  /\ uuid.MustStringToProto "" empty_store = (Panic EmptyInput, empty_store)
  /\ uuid.IsZero uuid.zero = true
  /\ exists e, fst (uuid.MustToProto uuid.zero empty_store) = Panic e.
Proof.
  assert (HP : snd (uuid.Parse "") = Some EmptyInput) by reflexivity.
  assert (Hz : uuid.IsZero uuid.zero = true) by reflexivity.
  destruct Must_panics as (H1 & H2 & _ & _ & H5 & _).
  split; [exact HP|]. split; [exact (proj2 (H1 "" EmptyInput) HP)|].
  split; [exact (H2 "" EmptyInput empty_store HP)|].
  split; [exact Hz|]. exact (proj2 (H5 uuid.zero empty_store) Hz).
Defined.

(** ** JSON *)

Lemma top_level_quoted (l : list byte) :
  Forall (fun c => plain c = true) l ->
  top_level (json.dquote :: l ++ [json.dquote]) = Some JString.
Proof.
  intros Hl. unfold top_level. now rewrite (json_facts.checkValid_quoted l Hl).
Qed.

(** X12.  What [MarshalJSON] writes for a valid value: 38 bytes, which
    are one JSON value, a string literal, without an escape: the
    canonical text between two quotes, from which [json.Unmarshal]
    reads the text back and [UnmarshalJSON] the value, whatever the
    destination held. *)
Theorem MarshalJSON_shape (v : uuid.ValidatedUUID) :
  wf v -> uuid.IsZero v = false ->
  exists data,
    uuid.MarshalJSON v = (data, None)
    /\ data = json.dquote :: bytes (uuid.String v) ++ [json.dquote]
    /\ length data = 38
    /\ json.checkValid data = None
    /\ top_level data = Some JString
    /\ json.Unmarshal data "" = (uuid.String v, None)
    /\ (forall u, uuid.UnmarshalJSON u data = (v, None)).
Proof.
  intros Hwf Hnz. exists (quoted (uuid.String v)).
  pose proof (json_facts.plain_String _ Hwf) as Hplain.
  split; [exact (proj1 (JSON_round_trip v v Hwf Hnz))|].
  split; [reflexivity|]. unfold quoted. split; [|split; [|split; [|split]]].
  - cbn [length]. rewrite length_app, length_bytes.
    unfold uuid.String. now rewrite (google_uuid_facts.length_String _ Hwf).
  - now apply json_facts.checkValid_quoted.
  - now apply top_level_quoted.
  - now apply (json_facts.Unmarshal_quoted (uuid.String v) "").
  - intros u. exact (proj2 (JSON_round_trip u v Hwf Hnz)).
Qed.

Lemma MarshalJSON_shape_witness :
  wf example_uuid /\ uuid.IsZero example_uuid = false
  /\ exists data,
       uuid.MarshalJSON example_uuid = (data, None)
       /\ data = json.dquote :: bytes example_text ++ [json.dquote]
       /\ length data = 38
       /\ json.checkValid data = None
       /\ top_level data = Some JString
       /\ json.Unmarshal data "" = (example_text, None)
       /\ (forall u, uuid.UnmarshalJSON u data = (example_uuid, None)).
Proof.
  assert (Hwf : wf example_uuid) by reflexivity.
  assert (Hnz : uuid.IsZero example_uuid = false) by reflexivity.
  split; [exact Hwf|]. split; [exact Hnz|].
  exact (MarshalJSON_shape example_uuid Hwf Hnz).
Defined.

(** X13.  [UnmarshalJSON] succeeds on a JSON string only: when it
    returns no error the input is one JSON value whose top level is a
    string literal, and the value written is what [Parse] returns for
    the decoded string. *)
Theorem UnmarshalJSON_only_strings (u v : uuid.ValidatedUUID) (data : list byte) :
  uuid.UnmarshalJSON u data = (v, None) ->
  json.checkValid data = None
  /\ top_level data = Some JString
  /\ exists s, json.Unmarshal data "" = (s, None) /\ uuid.Parse s = (v, None).
Proof.
  unfold uuid.UnmarshalJSON.
  destruct (json.Unmarshal data "") as [s [e|]] eqn:HU; [discriminate|].
  destruct (uuid.Parse s) as [v' [e|]] eqn:HP; [discriminate|]. intros [= ->].
  assert (Hvalid : json.checkValid data = None).
  { destruct (json.checkValid data) as [e|] eqn:Hc; [|reflexivity].
    unfold json.Unmarshal in HU. rewrite Hc in HU. discriminate HU. }
  destruct (json_facts.valid_has_kind data Hvalid) as [k Hk].
  pose proof (json_facts.Unmarshal_by_kind data k "" Hk) as Hkind.
  split; [exact Hvalid|]. split; [|eauto].
  destruct k; try (rewrite HU in Hkind; discriminate Hkind); [|exact Hk].
  rewrite HU in Hkind. injection Hkind as ->. discriminate HP.
Qed.

Lemma UnmarshalJSON_only_strings_witness :
  uuid.UnmarshalJSON uuid.zero (quoted example_text) = (example_uuid, None)
  /\ top_level (quoted example_text) = Some JString.
Proof.
  assert (H : uuid.UnmarshalJSON uuid.zero (quoted example_text) = (example_uuid, None))
    by (vm_compute; reflexivity).
  split; [exact H|]. exact (proj1 (proj2 (UnmarshalJSON_only_strings _ _ _ H))).
Defined.

(** ** Decoding in place *)

(** X14.  What [UnmarshalJSON] and [Scan] decide does not depend on the
    value the destination holds: for two destinations they return the
    same error, and when there is none they write the same value. *)
Theorem decode_ignores_destination (u u' : uuid.ValidatedUUID) :
  (forall data,
      snd (uuid.UnmarshalJSON u data) = snd (uuid.UnmarshalJSON u' data)
      /\ (snd (uuid.UnmarshalJSON u data) = None ->
          fst (uuid.UnmarshalJSON u data) = fst (uuid.UnmarshalJSON u' data)))
  /\ (forall value,
        snd (uuid.Scan u value) = snd (uuid.Scan u' value)
        /\ (snd (uuid.Scan u value) = None ->
            fst (uuid.Scan u value) = fst (uuid.Scan u' value))).
Proof.
  split.
  - intros data. unfold uuid.UnmarshalJSON.
    destruct (json.Unmarshal data "") as [s [e|]]; cbn; [easy|].
    now destruct (uuid.Parse s) as [v [e|]].
  - intros value. unfold uuid.Scan, uuid.Scan_string.
    destruct value as [|s|b| | | |]; cbn; try easy.
    + now destruct (uuid.Parse s) as [v [e|]].
    + now destruct (uuid.Parse (string_of_bytes b)) as [v [e|]].
Qed.

Lemma decode_ignores_destination_witness :
  snd (uuid.Scan uuid.zero (string_any example_text)) = None
  /\ fst (uuid.Scan uuid.zero (string_any example_text))
     = fst (uuid.Scan example_uuid (string_any example_text)).
Proof.
  assert (H : snd (uuid.Scan uuid.zero (string_any example_text)) = None) by reflexivity.
  split; [exact H|].
  exact (proj2 (proj2 (decode_ignores_destination uuid.zero example_uuid)
                  (string_any example_text)) H).
Defined.

(** ** Messages *)

Lemma FromStringValue_addr (l : loc) (σ : Store) :
  uuid.FromStringValue (addr l) σ
  = (uuid.Parse (from_option wrapperspb.Value "" (stringValues σ !! l)), σ).
Proof. reflexivity. Qed.

(** X15.  The wrapped string: for a valid value [ToStringValue] returns
    a new [StringValue] holding the canonical text, from which
    [FromStringValue] returns the value; [FromStringValue] of nil
    fails, and of a message it returns what [Parse] returns for the
    string the message holds, the error not wrapped. *)
Theorem StringValue_round_trip :
  (forall v σ,
      wf v -> uuid.IsZero v = false ->
      exists p σ',
        uuid.ToStringValue v σ = ((p, None), σ')
        /\ get_Value p σ' = (uuid.String v, σ')
        /\ uuid.FromStringValue p σ' = ((v, None), σ'))
  /\ (forall σ,
        uuid.FromStringValue nil σ = ((uuid.zero, Some (NilMessage "StringValue")), σ))
  /\ (forall l s σ,
        stringValues σ !! l = Some (wrapperspb.mkStringValue s) ->
        uuid.FromStringValue (addr l) σ = (uuid.Parse s, σ)).
Proof.
  split; [|split].
  - intros v σ Hwf Hnz. unfold uuid.ToStringValue.
    rewrite Validate_IsZero, Hnz. unfold mbind, mret, M_bind, M_ret, wrapperspb_String.
    eexists _, _. split; [reflexivity|].
    rewrite FromStringValue_addr. unfold get_Value. cbn [stringValues].
    rewrite lookup_insert_eq. cbn [from_option wrapperspb.Value].
    now rewrite (Parse_String v Hwf Hnz).
  - reflexivity.
  - intros l s σ Hl. now rewrite FromStringValue_addr, Hl.
Qed.

Lemma StringValue_round_trip_witness :
  wf example_uuid /\ uuid.IsZero example_uuid = false
  /\ exists p σ',
       uuid.ToStringValue example_uuid empty_store = ((p, None), σ')
       /\ get_Value p σ' = (example_text, σ')
       /\ uuid.FromStringValue p σ' = ((example_uuid, None), σ').
Proof.
  assert (Hwf : wf example_uuid) by reflexivity.
  assert (Hnz : uuid.IsZero example_uuid = false) by reflexivity.
  split; [exact Hwf|]. split; [exact Hnz|].
  exact (proj1 StringValue_round_trip example_uuid empty_store Hwf Hnz).
Defined.

(** X16.  [StringToProto] fails exactly as [Parse] does, with the error
    of [Parse] not wrapped and the store as it was: the validation of
    [ToProto] never fails behind [Parse].  When [Parse] accepts the
    text in any notation, the message returned holds the canonical
    text of the value, which [ProtoToString] gives back. *)
Theorem StringToProto_normalises (s : string) (σ : Store) :
  snd (fst (uuid.StringToProto s σ)) = snd (uuid.Parse s)
  /\ (forall e, snd (uuid.Parse s) = Some e ->
                uuid.StringToProto s σ = ((nil, Some e), σ))
  /\ (forall v, uuid.Parse s = (v, None) ->
        exists p σ',
          uuid.StringToProto s σ = ((p, None), σ')
          /\ GetVal p σ' = (uuid.String v, σ')
          /\ canonical (uuid.String v) = true
          /\ uuid.ProtoToString p σ' = ((uuid.String v, None), σ')).
Proof.
  unfold uuid.StringToProto.
  destruct (uuid.Parse s) as [v [e|]] eqn:HP; cbn [snd fst].
  - split; [reflexivity|]. split; [now intros e' [= ->]|]. intros v' H. discriminate H.
  - pose proof (Parse_wf s v HP) as Hwf. pose proof (Parse_nonzero s v HP) as Hnz.
    rewrite ToProto_cases, Hnz. cbn [snd fst].
    split; [reflexivity|]. split; [intros e H; discriminate H|].
    intros v' [= <-]. eexists _, _. split; [reflexivity|].
    unfold uuid.ProtoToString, mbind, mret, M_bind, M_ret.
    rewrite FromProto_addr. unfold GetVal. cbn [uuids].
    rewrite lookup_insert_eq. cbn [from_option pb.Val].
    rewrite (Parse_String v Hwf Hnz).
    split; [reflexivity|]. split; [now apply String_canonical|reflexivity].
Qed.

Lemma StringToProto_normalises_witness :
  uuid.Parse "550E8400E29B41D4A716446655440000" = (example_uuid, None)
  /\ exists p σ',
       uuid.StringToProto "550E8400E29B41D4A716446655440000" empty_store = ((p, None), σ')
       /\ GetVal p σ' = (example_text, σ')
       /\ canonical example_text = true
       /\ uuid.ProtoToString p σ' = ((example_text, None), σ').
Proof.
  assert (H : uuid.Parse "550E8400E29B41D4A716446655440000" = (example_uuid, None))
    by reflexivity.
  split; [exact H|].
  exact (proj2 (proj2 (StringToProto_normalises _ empty_store)) example_uuid H).
Defined.

(** X17.  The three readers of a message agree: [ValidateProtoUUID] and
    [ProtoToString] return the error [FromProto] returns, which for a
    message is the error [ValidateStringUUID] returns for its text; a
    text [ProtoToString] returns is canonical and is not the zero text,
    and with an error it returns the empty string. *)
Theorem proto_readers_agree (pb : ptr pb.UUID) (σ : Store) :
  fst (uuid.ValidateProtoUUID pb σ) = snd (fst (uuid.FromProto pb σ))
  /\ snd (fst (uuid.ProtoToString pb σ)) = snd (fst (uuid.FromProto pb σ))
  /\ (pb <> nil ->
      fst (uuid.ValidateProtoUUID pb σ) = uuid.ValidateStringUUID (fst (GetVal pb σ)))
  /\ (forall t, fst (uuid.ProtoToString pb σ) = (t, None) ->
                canonical t = true /\ t <> zero_text)
  /\ (forall t e, fst (uuid.ProtoToString pb σ) = (t, Some e) -> t = "").
Proof.
  unfold uuid.ValidateProtoUUID, uuid.ProtoToString, uuid.FromProto.
  unfold mbind, mret, M_bind, M_ret, GetVal.
  case_bool_decide as Hpb; cbn [fst snd].
  - split; [reflexivity|]. split; [reflexivity|]. split; [easy|]. split.
    + intros t H. discriminate H.
    + now intros t e [= <- _].
  - set (val := match pb with nil => "" | addr l => from_option pb.Val "" (uuids σ !! l) end).
    unfold uuid.ValidateStringUUID.
    destruct (uuid.Parse val) as [v [e|]] eqn:HP; cbn [fst snd].
    + split; [reflexivity|]. split; [reflexivity|]. split; [reflexivity|]. split.
      * intros t H. discriminate H.
      * now intros t e' [= <- _].
    + split; [reflexivity|]. split; [reflexivity|]. split; [reflexivity|]. split.
      * intros t [= <-]. pose proof (Parse_wf val v HP). pose proof (Parse_nonzero val v HP).
        split; [now apply String_canonical|now apply String_nonzero].
      * intros t e H. discriminate H.
Qed.

Lemma proto_readers_agree_witness :
  exists p σ,
    fst (uuid.ProtoToString p σ) = (example_text, None)
    /\ fst (uuid.ValidateProtoUUID p σ) = None
    /\ canonical example_text = true /\ example_text <> zero_text.
Proof.
  exists (addr 1%positive),
    {| uuids := {[ 1%positive := pb.mkUUID example_text ]}; stringValues := ∅ |}.
  match goal with
  | |- fst (uuid.ProtoToString ?p ?σ) = _ /\ _ =>
      assert (H : fst (uuid.ProtoToString p σ) = (example_text, None))
        by (vm_compute; reflexivity);
      destruct (proto_readers_agree p σ) as (H1 & H2 & _ & H3 & _)
  end.
  split; [exact H|]. split; [|exact (H3 example_text H)].
  rewrite H1, <- H2, H. reflexivity.
Defined.

(** X18.  Every successful [ToProto] allocates a message of its own:
    the address it returns was not in use, a second call returns
    another address, and both messages then hold the canonical text;
    no message is shared between two results. *)
Theorem ToProto_fresh (v : uuid.ValidatedUUID) (σ : Store) :
  uuid.IsZero v = false ->
  exists l1 l2 σ1 σ2,
    uuid.ToProto v σ = ((addr l1, None), σ1)
    /\ uuid.ToProto v σ1 = ((addr l2, None), σ2)
    /\ uuids σ !! l1 = None
    /\ l1 <> l2
    /\ uuids σ2 !! l1 = Some (pb.mkUUID (uuid.String v))
    /\ uuids σ2 !! l2 = Some (pb.mkUUID (uuid.String v)).
Proof.
  intros Hnz. rewrite ToProto_cases, Hnz.
  eexists _, _, _, _. split; [reflexivity|].
  rewrite ToProto_cases, Hnz. split; [reflexivity|]. cbn [uuids].
  set (l1 := fresh (dom (uuids σ))).
  set (m1 := <[l1 := pb.mkUUID (uuid.String v)]> (uuids σ)).
  set (l2 := fresh (dom m1)).
  assert (H1 : uuids σ !! l1 = None) by apply not_elem_of_dom, is_fresh.
  assert (H2 : m1 !! l2 = None) by apply not_elem_of_dom, is_fresh.
  assert (Hne : l1 <> l2).
  { intros Heq. rewrite <- Heq in H2. unfold m1 in H2.
    rewrite lookup_insert_eq in H2. discriminate H2. }
  split; [exact H1|]. split; [exact Hne|]. split.
  - rewrite lookup_insert_ne by (intros Heq; now apply Hne).
    apply lookup_insert_eq.
  - apply lookup_insert_eq.
Qed.

Lemma ToProto_fresh_witness :
  uuid.IsZero example_uuid = false
  /\ exists l1 l2 σ1 σ2,
       uuid.ToProto example_uuid empty_store = ((addr l1, None), σ1)
       /\ uuid.ToProto example_uuid σ1 = ((addr l2, None), σ2)
       /\ uuids empty_store !! l1 = None
       /\ l1 <> l2
       /\ uuids σ2 !! l1 = Some (pb.mkUUID (uuid.String example_uuid))
       /\ uuids σ2 !! l2 = Some (pb.mkUUID (uuid.String example_uuid)).
Proof.
  assert (Hnz : uuid.IsZero example_uuid = false) by reflexivity.
  split; [exact Hnz|]. exact (ToProto_fresh example_uuid empty_store Hnz).
Defined.

(** ** Generation *)

Lemma version_bits (b : byte) :
  N.shiftr (Byte.to_N (u8 (N.lor (N.land (Byte.to_N b) 15) 64))) 4 = 4%N.
Proof. destruct b; reflexivity. Qed.

Lemma variant_bits (b : byte) :
  N.shiftr (Byte.to_N (u8 (N.lor (N.land (Byte.to_N b) 63) 128))) 6 = 2%N.
Proof. destruct b; reflexivity. Qed.

(** X19.  [New] reads sixteen bytes of the random source and returns
    them with the version set to 4 and the variant to binary 10, the
    other bytes as read; when the source delivers fewer than sixteen
    bytes [New] panics. *)
Theorem New_random_v4 (r : list byte) :
  (16 <= length r ->
   exists v,
     uuid.New r = (Return v, drop 16 r)
     /\ version (uuid.UUID v) = 4%N
     /\ variant (uuid.UUID v) = 2%N
     /\ (forall i, i <> 6 -> i <> 8 -> uuid.UUID v !! i = take 16 r !! i))
  /\ (length r < 16 -> exists e, uuid.New r = (Panic e, [])).
Proof.
  unfold uuid.New, google_uuid.New, google_uuid.NewRandomFromReader, google_uuid.ReadFull.
  split.
  - intros Hr. rewrite bool_decide_eq_true_2 by exact Hr. cbn [google_uuid.Must].
    eexists. split; [reflexivity|]. cbn [uuid.UUID].
    assert (Hlen : length (take 16 r) = 16) by (rewrite length_take; lia).
    destruct (google_uuid_facts.length_16_inv _ Hlen)
      as (? & ? & ? & ? & ? & ? & ? & ? & ? & ? & ? & ? & ? & ? & ? & ? & ->).
    split; [apply version_bits|]. split; [apply variant_bits|].
    intros i H6 H8.
    do 9 (destruct i as [|i]; [reflexivity || congruence|]). reflexivity.
  - intros Hr. rewrite bool_decide_eq_false_2 by lia.
    case_bool_decide; cbn; eauto.
Qed.

Lemma New_random_v4_witness :
  16 <= length (replicate 16 xff)
  /\ exists v,
       uuid.New (replicate 16 xff) = (Return v, [])
       /\ version (uuid.UUID v) = 4%N /\ variant (uuid.UUID v) = 2%N.
Proof.
  assert (Hr : 16 <= length (replicate 16 xff)) by (cbn; lia).
  split; [exact Hr|].
  destruct (proj1 (New_random_v4 (replicate 16 xff)) Hr) as (v & H & H4 & H2 & _).
  exists v. split; [exact H|]. split; [exact H4|exact H2].
Defined.

(** ** One error, every entry point *)



(** ** Every encoding of a parsed value *)

(** X21.  A value [Parse] has returned passes every outbound
    conversion: [Validate], [MarshalJSON], [Value], [ToProto] and
    [ToStringValue] return no error for it, and what [MarshalJSON] and
    [Value] return is decoded back to the value by [UnmarshalJSON] and
    [Scan]. *)
Theorem parsed_values_encode (s : string) (v : uuid.ValidatedUUID) (σ : Store) :
  uuid.Parse s = (v, None) ->
  uuid.Validate v = None
  /\ snd (uuid.MarshalJSON v) = None
  /\ snd (uuid.Value v) = None
  /\ snd (fst (uuid.ToProto v σ)) = None
  /\ snd (fst (uuid.ToStringValue v σ)) = None
  /\ (forall u, uuid.UnmarshalJSON u (fst (uuid.MarshalJSON v)) = (v, None))
  /\ (forall u, uuid.Scan u (fst (uuid.Value v)) = (v, None)).
Proof.
  intros HP. pose proof (Parse_wf s v HP) as Hwf. pose proof (Parse_nonzero s v HP) as Hnz.
  assert (HV : uuid.Validate v = None) by (now rewrite Validate_IsZero, Hnz).
  assert (HJ : uuid.MarshalJSON v = (quoted (uuid.String v), None))
    by exact (proj1 (JSON_round_trip v v Hwf Hnz)).
  split; [exact HV|]. split; [now rewrite HJ|].
  unfold uuid.Value, uuid.ToStringValue. rewrite ToProto_cases, HV, Hnz. cbn [fst snd].
  split; [reflexivity|]. split; [reflexivity|]. split; [reflexivity|]. split.
  - intros u. rewrite HJ. exact (proj2 (JSON_round_trip u v Hwf Hnz)).
  - intros u. unfold uuid.Scan, uuid.Scan_string.
    change (google_uuid.String (uuid.UUID v)) with (uuid.String v).
    now rewrite (Parse_String v Hwf Hnz).
Qed.

Lemma parsed_values_encode_witness :
  uuid.Parse "urn:uuid:550e8400-e29b-41d4-a716-446655440000" = (example_uuid, None)
  /\ snd (uuid.MarshalJSON example_uuid) = None
  /\ uuid.UnmarshalJSON uuid.zero (fst (uuid.MarshalJSON example_uuid)) = (example_uuid, None).
Proof.
  assert (H : uuid.Parse "urn:uuid:550e8400-e29b-41d4-a716-446655440000"
              = (example_uuid, None)) by reflexivity.
  destruct (parsed_values_encode _ _ empty_store H) as (_ & HJ & _ & _ & _ & HU & _).
  split; [exact H|]. split; [exact HJ|exact (HU uuid.zero)].
Defined.

(** ** White space around the JSON string *)

Module json_space.
Import json.






End json_space.



(** ** The values of [New] *)

(** X23.  What the package's tests check of a generated value holds
    for every random source that delivers sixteen bytes: the value
    [New] returns is not zero, [FromGoogleUUID] of its bytes returns it,
    [MarshalJSON] and [UnmarshalJSON] give it back, the message of
    [ToProto] holds its text and [FromProto] of the message returns
    it. *)
Theorem New_values_round_trip (r : list byte) (σ : Store) :
  16 <= length r ->
  exists v,
    uuid.New r = (Return v, drop 16 r)
    /\ uuid.IsZero v = false
    /\ uuid.FromGoogleUUID (uuid.UUID v) = (v, None)
    /\ (exists data,
          uuid.MarshalJSON v = (data, None)
          /\ forall u, uuid.UnmarshalJSON u data = (v, None))
    /\ (exists p σ',
          uuid.ToProto v σ = ((p, None), σ')
          /\ GetVal p σ' = (uuid.String v, σ')
          /\ uuid.FromProto p σ' = ((v, None), σ')).
Proof.
  intros Hr. destruct (New_returns r Hr) as (v & HN & Hwf & Hnz).
  exists v. split; [exact HN|]. split; [exact Hnz|].
  split; [now apply FromGoogleUUID_ok|]. split.
  - exists (quoted (uuid.String v)).
    split; [exact (proj1 (JSON_round_trip v v Hwf Hnz))|].
    intros u. exact (proj2 (JSON_round_trip u v Hwf Hnz)).
  - rewrite ToProto_cases, Hnz. eexists _, _. split; [reflexivity|].
    rewrite FromProto_addr. unfold GetVal. cbn [uuids].
    rewrite lookup_insert_eq. cbn [from_option pb.Val].
    now rewrite (Parse_String v Hwf Hnz).
Qed.

Lemma New_values_round_trip_witness :
  16 <= length (replicate 20 x00)
  /\ exists v,
       uuid.New (replicate 20 x00) = (Return v, replicate 4 x00)
       /\ uuid.IsZero v = false
       /\ uuid.FromGoogleUUID (uuid.UUID v) = (v, None).
Proof.
  assert (Hr : 16 <= length (replicate 20 x00)) by (cbn; lia).
  split; [exact Hr|].
  destruct (New_values_round_trip (replicate 20 x00) empty_store Hr)
    as (v & H & Hnz & HG & _).
  exists v. split; [exact H|]. split; [exact Hnz|exact HG].
Defined.

(** ** Messages of the errors *)




